(** * neon-monitor: the observe / persist-if-new / notify-once ledger

    A shallow embedding of [monitor.py].  The program polls three external
    sources (validator versions of the Solana clusters, GitHub tags, the
    deployment slot of on-chain programs), records what it sees in the SQLite
    file [versions.db] and posts one Slack message per row that was not yet
    notified.

    Layout of the development:
    - one SQL table as a list of rows in rowid order, and the three
      statements the program issues on it;
    - the store of three tables, the files on disk and the outside world;
    - the functions of [monitor.py], in a state-and-exception monad over the
      files on disk, the messages posted and the lines printed;
    - the properties of the specification. *)

From Stdlib Require Import ZArith Lia DecimalString.
From stdpp Require Import base tactics option list strings relations.

Local Open Scope string_scope.
Local Open Scope list_scope.

(** * One ledger table *)

(** Modelled from the spec: [schema.sql], the script [init_db] runs, is not
    among the sources.  The specification (Durable state) gives it: three
    tables, and in each "natural-key columns (unique, enforced), plus
    notified (boolean, default false)". *)
Record table_decl := { unique_key : bool; notified_default : bool }.

(** Modelled from the spec: the declaration every table of [schema.sql]
    has, in the words of the specification quoted above. *)
Definition schema_sql : table_decl :=
  {| unique_key := true; notified_default := false |}.

Section Table.
Context {K : Type} `{EqDecision K}.

(** A row: the natural-key columns and the [notified] column. *)
Record row := Row { key : K; notified : bool }.

Definition keys (t : list row) : list K := map key t.

Definition has_key (k : K) (t : list row) : bool :=
  bool_decide (k ∈ keys t).

(** [INSERT OR IGNORE INTO t(<key columns>) VALUES (?, ...)]: a row that
    would break the uniqueness of the key is dropped without an error; a
    new row takes the default of [notified]. *)
Definition insert_or_ignore (k : K) (t : list row) : list row :=
  if unique_key schema_sql && has_key k t then t
  else t ++ [Row k (notified_default schema_sql)].

(** [SELECT <key columns> FROM t WHERE notified = 0]. *)
Definition select_unnotified (t : list row) : list K :=
  keys (filter (λ r, notified r = false) t).

(** [UPDATE t SET notified=1 WHERE <key columns> = (?, ...)]. *)
Definition update_notified (k : K) (t : list row) : list row :=
  map (λ r, if decide (key r = k) then Row (key r) true else r) t.

(** What the statements of the program can do to a table: rows stay where
    they are with their key, [notified] only goes from 0 to 1, new rows
    come at the end. *)
Inductive table_le : list row → list row → Prop :=
| table_le_nil (ext : list row) : table_le [] ext
| table_le_cons (r r' : row) (t t' : list row) :
    key r = key r' →
    (notified r = true → notified r' = true) →
    table_le t t' →
    table_le (r :: t) (r' :: t').

(** The rows of a key are all notified, and there is one at least. *)
Definition marked (k : K) (t : list row) : Prop :=
  k ∈ keys t ∧ ∀ r, r ∈ t → key r = k → notified r = true.


(** The key columns are unique. *)
Definition unique_keys (t : list row) : Prop := NoDup (keys t).

End Table.

Arguments row : clear implicits.

(** A table holds its rows in rowid order.  The program never deletes, so
    rowid order is insertion order; a [SELECT] without [ORDER BY] on a
    rowid table that no index covers is a scan in that order. *)
Abbreviation table K := (list (row K)).

(** * The store: three tables *)

Inductive family := SolanaClusters | GithubVersions | Programs.

(** The natural key of each table: [solana_clusters(cluster, version)],
    [github_versions(name, version)], [programs(name, cluster, last_slot)]. *)
Definition fkey (f : family) : Type :=
  match f with
  | SolanaClusters => (string * string)%type
  | GithubVersions => (string * string)%type
  | Programs => (string * string * Z)%type
  end.

#[global] Instance fkey_eq_dec (f : family) : EqDecision (fkey f) :=
  match f with
  | SolanaClusters => _
  | GithubVersions => _
  | Programs => _
  end.

Record Store := {
  solana_clusters : table (string * string);
  github_versions : table (string * string);
  programs : table (string * string * Z)
}.

Definition get_table (f : family) (s : Store) : table (fkey f) :=
  match f with
  | SolanaClusters => solana_clusters s
  | GithubVersions => github_versions s
  | Programs => programs s
  end.

Definition set_table (f : family) : table (fkey f) → Store → Store :=
  match f with
  | SolanaClusters => λ t s,
      {| solana_clusters := t; github_versions := github_versions s;
         programs := programs s |}
  | GithubVersions => λ t s,
      {| solana_clusters := solana_clusters s; github_versions := t;
         programs := programs s |}
  | Programs => λ t s,
      {| solana_clusters := solana_clusters s;
         github_versions := github_versions s; programs := t |}
  end.

(** What [executescript] of [schema.sql] leaves in a new file. *)
Definition empty_store : Store :=
  {| solana_clusters := []; github_versions := []; programs := [] |}.

(** * Python values, exceptions and the outside world *)

(** The exceptions the program meets.  All of them derive from
    [Exception], so an [except Exception] clause catches each. *)
Inductive exn :=
| KeyError (k : string)
| AttributeError
| TypeError
| FileNotFoundError
| OperationalError (msg : string)
| ExternalError (msg : string).

Inductive result (A : Type) :=
| Ok (a : A)
| Raise (e : exn).
Arguments Ok {A} a.
Arguments Raise {A} e.

(** A dict in insertion order, as Python iterates it. *)
Definition dict (V : Type) := list (string * V).

Fixpoint dict_get {V} (d : dict V) (k : string) : option V :=
  match d with
  | [] => None
  | (k', v) :: d' => if decide (k' = k) then Some v else dict_get d' k
  end.

(** [d[k] = v]: the value of an existing key is replaced in place, a new
    key goes last. *)
Fixpoint dict_set {V} (d : dict V) (k : string) (v : V) : dict V :=
  match d with
  | [] => [(k, v)]
  | (k', v') :: d' =>
      if decide (k' = k) then (k', v) :: d' else (k', v') :: dict_set d' k v
  end.

Definition dict_keys {V} (d : dict V) : list string := map fst d.

(** [d[k]], which raises [KeyError] on a missing key. *)
Definition dict_item {V} (d : dict V) (k : string) : result V :=
  match dict_get d k with
  | Some v => Ok v
  | None => Raise (KeyError k)
  end.

(** Truth value of an optional string and of an optional integer:
    [None], [""] and [0] are false. *)
Definition truthy_str (o : option string) : bool :=
  match o with
  | None => false
  | Some s => negb (bool_decide (s = ""))
  end.

Definition truthy_int (o : option Z) : bool :=
  match o with
  | None => false
  | Some n => negb (n =? 0)%Z
  end.

(** [str(n)] of an integer. *)
Definition str_int (n : Z) : string := NilZero.string_of_int (Z.to_int n).

(** An entry of [PROGRAM_ADDRESSES]: one address, or a dict of addresses
    keyed by cluster. *)
Inductive address :=
| Fixed (a : string)
| PerCluster (per : dict string).

(** The module-level configuration. *)
Record Config := {
  SLACK_CHANNEL_WEBHOOK : option string;
  SOLANA_CLUSTER_ENDPOINTS : dict string;
  PROGRAM_ADDRESSES : dict address;
  GITHUB_ADDRESSES : dict string
}.

(** The constants of [monitor.py]; the webhook comes from the environment
    variable [NEON_SLACK_CHANNEL]. *)
Definition monitor_config (webhook : option string) : Config :=
  {| SLACK_CHANNEL_WEBHOOK := webhook;
     SOLANA_CLUSTER_ENDPOINTS :=
       [("devnet", "https://api.devnet.solana.com");
        ("testnet", "https://api.testnet.solana.com");
        ("mainnet-beta", "https://api.mainnet-beta.solana.com")];
     PROGRAM_ADDRESSES :=
       [("metaplex", Fixed "metaqbxxUerdq28cj1RbAWkYQm3ybzjb6a8bt518x1s")];
     GITHUB_ADDRESSES :=
       [("solana", "solana-labs/solana");
        ("spl", "solana-labs/solana-program-library");
        ("metaplex", "metaplex-foundation/metaplex-program-library")] |}.

(** The [info] object of a parsed account: the two fields the program
    reads, each absent or present. *)
Record account_info := {
  programData : option string;
  slot : option Z
}.

(** [data.value.data] of an account: raw bytes, which have no [parsed]
    attribute, or the parsed form with its optional [info] object. *)
Inductive account_data :=
| RawData
| ParsedData (info : option account_info).

(** The body of a Slack webhook post: the text, and the [mrkdwn] texts of
    the section blocks when there are any. *)
Record slack_body := { text : string; blocks : option (list string) }.

(** The collaborators.  Each call answers or raises.
    - [get_cluster_nodes endpoint]: the version field of each node;
    - [get_account_info_json_parsed endpoint address]: [value] of the
      answer, [None] when there is no such account;
    - [Pubkey_from_string]: the address, when it is a well-formed key;
    - [get_repo_tags]: the names of all tags of a repository, newest first;
    - [requests_post channel body]: the HTTP status of the answer. *)
Record World := {
  get_cluster_nodes : string → result (list (option string));
  get_account_info_json_parsed : string → string → result (option account_data);
  Pubkey_from_string : string → result string;
  get_repo_tags : string → result (list string);
  requests_post : option string → slack_body → result Z
}.

(** * The state of a run *)

(** The file [versions.db]: absent, or present with or without its tables. *)
Inductive db_file :=
| NoFile
| DbFile (tables : option Store).

Inductive log_line :=
| CantSendMessage (e : exn)
| CantFindProgramAccount.

(** What a run reads and writes: the two files, the bodies handed to
    [requests.post] (oldest first) and the lines printed. *)
Record State := {
  versions_db : db_file;
  schema_sql_exists : bool;
  posted : list slack_body;
  stdout : list log_line
}.

Definition with_db (d : db_file) (st : State) : State :=
  {| versions_db := d; schema_sql_exists := schema_sql_exists st;
     posted := posted st; stdout := stdout st |}.

(** * The monad of the program: state and exceptions *)

Definition M (A : Type) : Type := State → result A * State.

#[global] Instance M_ret : MRet M := λ A a st, (Ok a, st).

#[global] Instance M_bind : MBind M := λ A B k m st,
  match m st with
  | (Ok a, st') => k a st'
  | (Raise e, st') => (Raise e, st')
  end.

Definition raise {A} (e : exn) : M A := λ st, (Raise e, st).

Definition lift {A} (r : result A) : M A := λ st, (r, st).

(** [try: body except Exception as e: handler e].  What the body did to the
    state before it raised stays done. *)
Definition try_except (body : M unit) (handler : exn → M unit) : M unit :=
  λ st,
    match body st with
    | (Ok tt, st') => (Ok tt, st')
    | (Raise e, st') => handler e st'
    end.

(** [for x in l: body x]. *)
Fixpoint for_each {A} (l : list A) (body : A → M unit) : M unit :=
  match l with
  | [] => mret tt
  | x :: l' => body x ;; for_each l' body
  end.

(** [print(...)]. *)
Definition print (line : log_line) : M unit := λ st,
  (Ok tt,
   {| versions_db := versions_db st; schema_sql_exists := schema_sql_exists st;
      posted := posted st; stdout := stdout st ++ [line] |}).

(** ** SQLite *)

(** [sqlite3.connect("versions.db")] creates the file when it is absent. *)
Definition sqlite3_connect : M unit := λ st,
  match versions_db st with
  | NoFile => (Ok tt, with_db (DbFile None) st)
  | DbFile _ => (Ok tt, st)
  end.

(** A statement on a table of a file without tables raises. *)
Definition the_table (f : family) : M (table (fkey f)) := λ st,
  match versions_db st with
  | DbFile (Some s) => (Ok (get_table f s), st)
  | _ => (Raise (OperationalError "no such table"), st)
  end.

Definition put_table (f : family) (t : table (fkey f)) : M unit := λ st,
  match versions_db st with
  | DbFile (Some s) => (Ok tt, with_db (DbFile (Some (set_table f t s))) st)
  | _ => (Raise (OperationalError "no such table"), st)
  end.

Definition execute_insert_or_ignore (f : family) (k : fkey f) : M unit :=
  t ← the_table f; put_table f (insert_or_ignore k t).

Definition execute_select_unnotified (f : family) : M (list (fkey f)) :=
  t ← the_table f; mret (select_unnotified t).

Definition execute_update_notified (f : family) (k : fkey f) : M unit :=
  t ← the_table f; put_table f (update_notified k t).

(** Modelled from the spec: [cursor.executescript] of [schema.sql], which is
    not among the sources; the specification has it "create the three
    tables if absent". *)
Definition executescript_schema : M unit := λ st,
  match versions_db st with
  | NoFile => (Raise (OperationalError "unable to open database file"), st)
  | DbFile None => (Ok tt, with_db (DbFile (Some empty_store)) st)
  | DbFile (Some _) => (Ok tt, st)
  end.

(** [db.commit()] and [db.close()].  No function of the program lets an
    exception escape between a write and its commit, so writes are applied
    to the file at once. *)
Definition db_commit : M unit := mret tt.

(** * The functions of [monitor.py] *)

Section Monitor.
Variable cfg : Config.
Variable w : World.

(** [init_db]: the schema is run only when [versions.db] does not exist.
    [sqlite3.connect] has created the file by the time [schema.sql] is
    opened. *)
Definition path_exists : M bool := λ st,
  (Ok (match versions_db st with NoFile => false | DbFile _ => true end), st).

Definition open_schema_sql : M unit := λ st,
  if schema_sql_exists st then (Ok tt, st) else (Raise FileNotFoundError, st).

Definition init_db : M unit :=
  present ← path_exists;
  if negb present then
    sqlite3_connect ;;
    open_schema_sql ;;
    executescript_schema ;;
    db_commit
  else mret tt.

(** [get_solana_cluster_versions]: the loop body, on the [version] field of
    one node. *)
Definition count_version (versions : dict nat) (version : option string)
  : dict nat :=
  match version with
  | None => versions
  | Some v =>
      let versions :=
        match dict_get versions v with
        | None => dict_set versions v 0
        | Some _ => versions
        end in
      dict_set versions v (default 0 (dict_get versions v) + 1)
  end.

Definition get_solana_cluster_versions (endpoint : string) : M (dict nat) :=
  nodes ← lift (get_cluster_nodes w endpoint);
  mret (foldl count_version [] nodes).

(** [get_github_versions]: the names of the first ten tags. *)
Definition get_github_versions (repo_name : string) : M (list string) :=
  tags ← lift (get_repo_tags w repo_name);
  mret (take 10 tags).

Definition save_solana_cluster_versions (cluster_name : string)
    (versions : dict nat) : M unit :=
  sqlite3_connect ;;
  for_each (dict_keys versions) (λ version,
    execute_insert_or_ignore SolanaClusters (cluster_name, version)) ;;
  db_commit.

Definition save_github_versions (name : string) (versions : list string)
  : M unit :=
  sqlite3_connect ;;
  for_each versions (λ version,
    execute_insert_or_ignore GithubVersions (name, version)) ;;
  db_commit.

(** [send_slack_notification]: the body has the blocks when they are given
    and not empty.  The answer of [requests.post] is dropped, whatever its
    status; only an exception of the call is a failure. *)
Definition slack_body_of (message : string) (blocks : option (list string))
  : slack_body :=
  {| text := message;
     blocks := match blocks with
               | Some (b :: bs) => Some (b :: bs)
               | _ => None
               end |}.

Definition send_slack_notification (channel : option string)
    (message : string) (blocks : option (list string)) : M unit := λ st,
  let body := slack_body_of message blocks in
  let st' :=
    {| versions_db := versions_db st;
       schema_sql_exists := schema_sql_exists st;
       posted := posted st ++ [body]; stdout := stdout st |} in
  match requests_post w channel body with
  | Ok _ => (Ok tt, st')
  | Raise e => (Raise e, st')
  end.

(** The arguments of [send_slack_notification] for a row of each table.
    They are evaluated inside the [try]; a name that is not a key of the
    address dict raises [KeyError] there. *)
Definition github_message (line : string * string)
  : result (string * list string) :=
  let '(name, version) := line in
  match dict_item (GITHUB_ADDRESSES cfg) name with
  | Raise e => Raise e
  | Ok repo =>
      Ok ("New " +:+ name +:+ " version " +:+ version
            +:+ " was tagged in GitHub!",
          ["New <https://github.com/" +:+ repo +:+ "|" +:+ name
             +:+ "> was <https://github.com/" +:+ repo +:+ "/tree/"
             +:+ version +:+ "|tagged> in Github!"])
  end.

Definition solana_message (line : string * string)
  : result (string * list string) :=
  let '(cluster, version) := line in
  let m := "New Solana version " +:+ version +:+ " is available on "
             +:+ cluster +:+ " cluster!" in
  Ok (m, [m]).

(** [str] of an entry of [PROGRAM_ADDRESSES]; of a dict, its display with
    quoted keys and values. *)
Definition str_address (a : address) : string :=
  match a with
  | Fixed s => s
  | PerCluster per =>
      "{" +:+ String.concat ", "
                (map (λ kv, "'" +:+ fst kv +:+ "': '" +:+ snd kv +:+ "'") per)
          +:+ "}"
  end.

Definition programs_message (line : string * string * Z)
  : result (string * list string) :=
  let '(name, cluster, last_slot) := line in
  match dict_item (PROGRAM_ADDRESSES cfg) name with
  | Raise e => Raise e
  | Ok addr =>
      Ok ("New " +:+ name +:+ " version " +:+ str_int last_slot
            +:+ " was deployed in " +:+ cluster +:+ "!",
          ["New <https://explorer.solana.com/address/" +:+ str_address addr
             +:+ "?cluster=" +:+ cluster +:+ "|" +:+ name
             +:+ "> version was deployed in <https://explorer.solana.com/?cluster="
             +:+ cluster +:+ "|cluster> on " +:+ str_int last_slot
             +:+ " slot!"])
  end.

Definition slack_message (f : family) : fkey f → result (string * list string) :=
  match f with
  | SolanaClusters => solana_message
  | GithubVersions => github_message
  | Programs => programs_message
  end.

(** The body of the [for line in cursor.fetchall()] loop, the same in the
    three notifiers up to the table and the message. *)
Definition notify_line (f : family) (line : fkey f) : M unit :=
  try_except
    ('(message, blocks) ← lift (slack_message f line);
     send_slack_notification (SLACK_CHANNEL_WEBHOOK cfg) message (Some blocks) ;;
     execute_update_notified f line)
    (λ e, print (CantSendMessage e)).

Definition notify (f : family) : M unit :=
  sqlite3_connect ;;
  lines ← execute_select_unnotified f;
  for_each lines (notify_line f) ;;
  db_commit.

Definition notify_github_versions : M unit := notify GithubVersions.
Definition notify_solana_cluster_versions : M unit := notify SolanaClusters.
Definition notify_programs_version : M unit := notify Programs.

(** The body of the loop of [check_solana]. *)
Definition check_cluster (entry : string * string) : M unit :=
  let '(cluster_name, endpoint) := entry in
  versions ← get_solana_cluster_versions endpoint;
  save_solana_cluster_versions cluster_name versions.

Definition check_solana : M unit :=
  for_each (SOLANA_CLUSTER_ENDPOINTS cfg) check_cluster ;;
  notify_solana_cluster_versions.

(** [Pubkey.from_string] of a value that may be [None]. *)
Definition pubkey (a : option string) : M string :=
  match a with
  | None => raise TypeError
  | Some s => lift (Pubkey_from_string w s)
  end.

(** [data.value.data.parsed.get("info", {})]. *)
Definition parsed_info (value : option account_data) : M account_info :=
  match value with
  | None => raise AttributeError
  | Some RawData => raise AttributeError
  | Some (ParsedData None) => mret {| programData := None; slot := None |}
  | Some (ParsedData (Some info)) => mret info
  end.

Definition get_program_last_update (endpoint : string)
    (program_address : option string) : M (option Z) :=
  pk ← pubkey program_address;
  data ← lift (get_account_info_json_parsed w endpoint pk);
  info ← parsed_info data;
  let program_account := programData info in
  if negb (truthy_str program_account) then
    print CantFindProgramAccount ;; mret None
  else
    pk' ← pubkey program_account;
    program_data ← lift (get_account_info_json_parsed w endpoint pk');
    info' ← parsed_info program_data;
    mret (slot info').

Definition save_program_version (name : string) (version : Z)
    (cluster : string) : M unit :=
  sqlite3_connect ;;
  execute_insert_or_ignore Programs (name, cluster, version) ;;
  db_commit.

(** The address of a program on a cluster: [isinstance(..., dict)] picks
    the entry of the cluster, [None] when it has none, or the one address. *)
Definition resolve_address (addr : address) (cluster_name : string)
  : option string :=
  match addr with
  | PerCluster per => dict_get per cluster_name
  | Fixed a => Some a
  end.

(** The body of the inner loop of [check_chain_programs]. *)
Definition check_program (cluster_name endpoint : string)
    (entry : string * address) : M unit :=
  let '(program_name, addr) := entry in
  let program_address := resolve_address addr cluster_name in
  version ← get_program_last_update endpoint program_address;
  if truthy_int version then
    save_program_version program_name (default 0%Z version) cluster_name
  else mret tt.

(** The body of the outer loop of [check_chain_programs]. *)
Definition check_cluster_programs (entry : string * string) : M unit :=
  let '(cluster_name, endpoint) := entry in
  for_each (PROGRAM_ADDRESSES cfg) (check_program cluster_name endpoint).

Definition check_chain_programs : M unit :=
  for_each (SOLANA_CLUSTER_ENDPOINTS cfg) check_cluster_programs.

(** The body of the loop of [check_github_versions]. *)
Definition check_repository (entry : string * string) : M unit :=
  let '(program_name, repo_name) := entry in
  versions ← get_github_versions repo_name;
  save_github_versions program_name versions.

Definition check_github_versions : M unit :=
  for_each (GITHUB_ADDRESSES cfg) check_repository.

(** [if __name__ == "__main__"]: one run. *)
Definition main : M unit :=
  init_db ;;
  check_solana ;;
  check_chain_programs ;;
  check_github_versions ;;
  notify_github_versions ;;
  notify_programs_version.

End Monitor.

(** * Vocabulary of the properties *)

(** The table of a family in a state, when the file has its tables. *)
Definition rows (f : family) (st : State) : option (table (fkey f)) :=
  match versions_db st with
  | DbFile (Some s) => Some (get_table f s)
  | _ => None
  end.

(** The ledger operations of the specification, on a state:
    [recordIfAbsent] is the [INSERT OR IGNORE], [fetchUnnotified] the
    [SELECT ... WHERE notified = 0], [markNotified] the [UPDATE]. *)
Definition recordIfAbsent (f : family) (k : fkey f) : M unit :=
  execute_insert_or_ignore f k.

Definition fetchUnnotified (f : family) : M (list (fkey f)) :=
  execute_select_unnotified f.

Definition markNotified (f : family) (k : fkey f) : M unit :=
  execute_update_notified f k.

(** A call of a function of the program, or of one of its statements on
    the store. *)
Inductive call :=
| CallInitDb
| CallSaveSolanaClusterVersions (cluster_name : string) (versions : dict nat)
| CallSaveGithubVersions (name : string) (versions : list string)
| CallSaveProgramVersion (name : string) (version : Z) (cluster : string)
| CallNotifyLine (f : family) (line : fkey f)
| CallNotify (f : family)
| CallCheckSolana
| CallCheckChainPrograms
| CallCheckGithubVersions
| CallMain
| CallInsert (f : family) (k : fkey f)
| CallUpdate (f : family) (k : fkey f).

Definition run_call (cfg : Config) (w : World) (c : call) : M unit :=
  match c with
  | CallInitDb => init_db
  | CallSaveSolanaClusterVersions c v => save_solana_cluster_versions c v
  | CallSaveGithubVersions n v => save_github_versions n v
  | CallSaveProgramVersion n v c => save_program_version n v c
  | CallNotifyLine f line => notify_line cfg w f line
  | CallNotify f => notify cfg w f
  | CallCheckSolana => check_solana cfg w
  | CallCheckChainPrograms => check_chain_programs cfg w
  | CallCheckGithubVersions => check_github_versions cfg w
  | CallMain => main cfg w
  | CallInsert f k => recordIfAbsent f k
  | CallUpdate f k => markNotified f k
  end.

(** One step of the life of the store: some call, under some configuration
    and some behaviour of the outside world, whether it returns or raises. *)
Inductive step : relation State :=
| step_call (cfg : Config) (w : World) (c : call) (st : State) :
    step st (run_call cfg w c st).2.

(** [later st st']: [st'] comes after [st] through any number of calls. *)
Definition later : relation State := rtc step.




(** The keys a call is asked to insert outright, under a predicate. *)
Definition call_inserts (P : ∀ f, fkey f → Prop) (c : call) : Prop :=
  match c with
  | CallInsert f k => P f k
  | CallSaveProgramVersion n v c => P Programs (n, c, v)
  | _ => True
  end.

(** A relation on the tables of each family, lifted to states: when the
    first state has its tables so has the second, and each table is
    related to what it has become. *)
Definition state_rel (T : ∀ f, relation (table (fkey f))) : relation State :=
  λ st st', ∀ s, versions_db st = DbFile (Some s) →
    ∃ s', versions_db st' = DbFile (Some s') ∧
          ∀ f, T f (get_table f s) (get_table f s').

(** A computation whose every execution relates the state before to the
    state after. *)
Definition respects (R : relation State) {A} (m : M A) : Prop :=
  ∀ st, R st (m st).2.

(** The three relations the properties need: tables only grow, keys stay
    unique, rows that are notified stay so. *)
Definition grows : relation State := state_rel (λ f, table_le).

Definition keeps_unique : relation State :=
  state_rel (λ f t t', unique_keys t → unique_keys t').

Definition keeps_marked : relation State :=
  state_rel (λ f t t', ∀ k, marked k t → marked k t').


(** The body the notifier posts for a row, when its message can be built. *)
Definition body_of (cfg : Config) (f : family) (k : fkey f)
  : option slack_body :=
  match slack_message cfg f k with
  | Ok (message, blocks) => Some (slack_body_of message (Some blocks))
  | Raise _ => None
  end.

(** The dispatch of a row succeeds: the message is built and the call of
    [requests.post] returns. *)
Definition dispatch_ok (cfg : Config) (w : World) (f : family) (k : fkey f)
  : bool :=
  match body_of cfg f k with
  | Some body =>
      match requests_post w (SLACK_CHANNEL_WEBHOOK cfg) body with
      | Ok _ => true
      | Raise _ => false
      end
  | None => false
  end.


(** What the loop of a notifier leaves in a table: the rows of the lines
    whose dispatch succeeded are updated, in turn. *)
Definition notify_table {K} `{EqDecision K} (ok : K → bool) (lines : list K)
    (t : table K) : table K :=
  foldl (λ t k, if ok k then update_notified k t else t) t lines.

(** The bodies a notifier posts for the lines it fetched: one per line
    whose message can be built, in the order of the lines. *)
Definition attempts (cfg : Config) (f : family) (lines : list (fkey f))
  : list slack_body :=
  omap (body_of cfg f) lines.

(** The number of nodes that report a version. *)
Definition count_nodes (v : string) (nodes : list (option string)) : nat :=
  length (filter (λ n, n = Some v) nodes).

(** The parsed metadata of an account has no usable [programData]
    reference: no [info] object, no such field, or an empty one. *)
Definition lacks_program_data (info : option account_info) : Prop :=
  match info with
  | None => True
  | Some i => truthy_str (programData i) = false
  end.

(** The slot the parsed metadata of an account reports, if any. *)
Definition reported_slot (info : option account_info) : option Z :=
  match info with
  | None => None
  | Some i => slot i
  end.

(** The key has a slot that is not 0; keys of the other families have no
    slot. *)
Definition nonzero_slot (f : family) : fkey f → Prop :=
  match f with
  | Programs => λ k, k.2 ≠ 0%Z
  | _ => λ _, True
  end.

(** No row with slot 0 is added. *)
Definition no_new_zero_slot : relation State :=
  state_rel (λ f t t', ∀ k, k ∈ keys t' → ¬ nonzero_slot f k → k ∈ keys t).


(** * Vocabulary of the further properties *)

(** What a loop of [INSERT OR IGNORE] leaves in a table. *)
Definition insert_all {K} `{EqDecision K} (ks : list K) (t : table K)
  : table K :=
  foldl (λ t k, insert_or_ignore k t) t ks.

(** The file holds its tables. *)
Definition has_tables (st : State) : Prop :=
  ∃ s, versions_db st = DbFile (Some s).

(** Every key of the first state is a key of the second. *)
Definition covers : relation State :=
  state_rel (λ f t t', keys t ⊆ keys t').

(** The table of a family is left as it is. *)
Definition same_table (f0 : family) : relation State :=
  state_rel (λ f t t', f = f0 → t = t').

(** No row is left to notify. *)
Definition all_notified (st : State) : Prop :=
  ∀ f t, rows f st = Some t → select_unnotified t = [].

(** The keys are unique in every table the file holds. *)
Definition unique_state (st : State) : Prop :=
  ∀ f t, rows f st = Some t → unique_keys t.


(** Successive runs, one world per run. *)
Definition runs (cfg : Config) (ws : list World) (st : State) : State :=
  foldl (λ st w, (main cfg w st).2) st ws.

(** A computation that, once it has returned, returns the same again on any
    state with tables that has the keys it left, and then changes neither
    the file nor the messages posted. *)
Definition replayable {A} (m : M A) : Prop :=
  ∀ st a st' st2,
    m st = (Ok a, st') → covers st' st2 → has_tables st2 →
    ∃ st2', m st2 = (Ok a, st2') ∧
            versions_db st2' = versions_db st2 ∧ posted st2' = posted st2.

(** A computation that can be replayed and that only adds keys. *)
Definition steady {A} (m : M A) : Prop := replayable m ∧ respects covers m.



(** * Concrete worlds and states *)

Definition metaplex_address : string :=
  "metaqbxxUerdq28cj1RbAWkYQm3ybzjb6a8bt518x1s".

(** The configuration of [monitor.py] with a webhook set. *)
Definition example_config : Config :=
  monitor_config (Some "https://hooks.slack.com/services/T0/B0/X0").

(** Every collaborator answers: four nodes per cluster, one of them without
    a version; the metaplex account points to its executable-data account,
    written at slot 250000000; two tags per repository; Slack answers 200. *)
Definition calm_world : World :=
  {| get_cluster_nodes := λ _,
       Ok [Some "1.17.0"; None; Some "1.17.0"; Some "1.16.9"];
     get_account_info_json_parsed := λ _ a,
       if decide (a = metaplex_address)
       then Ok (Some (ParsedData (Some
              {| programData := Some "ProgramData1111"; slot := None |})))
       else Ok (Some (ParsedData (Some
              {| programData := None; slot := Some 250000000%Z |})));
     Pubkey_from_string := λ a, Ok a;
     get_repo_tags := λ _, Ok ["v1.17.0"; "v1.16.0"];
     requests_post := λ _ _, Ok 200%Z |}.

(** The same, but the devnet endpoint cannot be reached. *)
Definition devnet_down_world : World :=
  {| get_cluster_nodes := λ endpoint,
       if decide (endpoint = "https://api.devnet.solana.com")
       then Raise (ExternalError "unreachable")
       else get_cluster_nodes calm_world endpoint;
     get_account_info_json_parsed := get_account_info_json_parsed calm_world;
     Pubkey_from_string := Pubkey_from_string calm_world;
     get_repo_tags := get_repo_tags calm_world;
     requests_post := requests_post calm_world |}.

(** The same as [calm_world], but the call of [requests.post] raises. *)
Definition slack_down_world : World :=
  {| get_cluster_nodes := get_cluster_nodes calm_world;
     get_account_info_json_parsed := get_account_info_json_parsed calm_world;
     Pubkey_from_string := Pubkey_from_string calm_world;
     get_repo_tags := get_repo_tags calm_world;
     requests_post := λ _ _, Raise (ExternalError "connection refused") |}.

(** The same as [calm_world], but Slack answers with status 500. *)
Definition slack_500_world : World :=
  {| get_cluster_nodes := get_cluster_nodes calm_world;
     get_account_info_json_parsed := get_account_info_json_parsed calm_world;
     Pubkey_from_string := Pubkey_from_string calm_world;
     get_repo_tags := get_repo_tags calm_world;
     requests_post := λ _ _, Ok 500%Z |}.

(** The same as [calm_world], but the metaplex account has no
    [programData]: it is not an upgradeable program. *)
Definition not_upgradeable_world : World :=
  {| get_cluster_nodes := get_cluster_nodes calm_world;
     get_account_info_json_parsed := λ _ _,
       Ok (Some (ParsedData (Some {| programData := None; slot := None |})));
     Pubkey_from_string := Pubkey_from_string calm_world;
     get_repo_tags := get_repo_tags calm_world;
     requests_post := requests_post calm_world |}.

(** The same as [calm_world], but the executable-data account reports
    slot 0. *)
Definition slot_zero_world : World :=
  {| get_cluster_nodes := get_cluster_nodes calm_world;
     get_account_info_json_parsed := λ _ a,
       if decide (a = metaplex_address)
       then Ok (Some (ParsedData (Some
              {| programData := Some "ProgramData1111"; slot := None |})))
       else Ok (Some (ParsedData (Some
              {| programData := None; slot := Some 0%Z |})));
     Pubkey_from_string := Pubkey_from_string calm_world;
     get_repo_tags := get_repo_tags calm_world;
     requests_post := requests_post calm_world |}.

Definition state_of (d : db_file) : State :=
  {| versions_db := d; schema_sql_exists := true; posted := []; stdout := [] |}.

(** Before the first run; a file left without tables; a file with its
    empty tables; a file with one tag recorded and not notified. *)
Definition no_file_state : State := state_of NoFile.
Definition empty_file_state : State := state_of (DbFile None).
Definition ready_state : State := state_of (DbFile (Some empty_store)).

Definition one_tag_store : Store :=
  {| solana_clusters := [];
     github_versions := [Row ("solana", "v1.16.0") false];
     programs := [] |}.

Definition one_tag_state : State := state_of (DbFile (Some one_tag_store)).

(** The same as [calm_world], but no account exists at any address. *)
Definition no_account_world : World :=
  {| get_cluster_nodes := get_cluster_nodes calm_world;
     get_account_info_json_parsed := λ _ _, Ok None;
     Pubkey_from_string := Pubkey_from_string calm_world;
     get_repo_tags := get_repo_tags calm_world;
     requests_post := requests_post calm_world |}.


(** The body of the message for the tag of [one_tag_state]. *)
Definition one_tag_body : slack_body :=
  {| text := "New solana version v1.16.0 was tagged in GitHub!";
     blocks :=
       Some ["New <https://github.com/solana-labs/solana|solana> was <https://github.com/solana-labs/solana/tree/v1.16.0|tagged> in Github!"] |}.

(** * Facts about one table *)

Section TableFacts.
Context {K : Type} `{EqDecision K}.
Implicit Types (t : table K) (k : K) (r : row K).

Lemma has_key_spec k t : has_key k t = true ↔ k ∈ keys t.
Proof. unfold has_key. by rewrite bool_decide_eq_true. Qed.

Lemma insert_or_ignore_present k t :
  k ∈ keys t → insert_or_ignore k t = t.
Proof.
  intros Hk. unfold insert_or_ignore; simpl.
  apply has_key_spec in Hk. by rewrite Hk.
Qed.

Lemma insert_or_ignore_absent k t :
  k ∉ keys t → insert_or_ignore k t = t ++ [Row k false].
Proof.
  intros Hk. unfold insert_or_ignore; simpl.
  destruct (has_key k t) eqn:E; [|done].
  by apply has_key_spec in E.
Qed.

Lemma keys_app t1 t2 : keys (t1 ++ t2) = keys t1 ++ keys t2.
Proof. apply map_app. Qed.

Lemma elem_of_keys k t : k ∈ keys t ↔ ∃ r, r ∈ t ∧ key r = k.
Proof.
  unfold keys. rewrite list_elem_of_fmap.
  split; intros (r & H1 & H2); exists r; auto.
Qed.

Lemma insert_or_ignore_has k t : k ∈ keys (insert_or_ignore k t).
Proof.
  destruct (decide (k ∈ keys t)) as [Hk|Hk].
  - by rewrite insert_or_ignore_present.
  - rewrite insert_or_ignore_absent, keys_app by done.
    apply elem_of_app; right. simpl. apply list_elem_of_here.
Qed.

Lemma unique_keys_insert k t :
  unique_keys t → unique_keys (insert_or_ignore k t).
Proof.
  unfold unique_keys. intros Hu.
  destruct (decide (k ∈ keys t)) as [Hk|Hk].
  - by rewrite insert_or_ignore_present.
  - rewrite insert_or_ignore_absent, keys_app by done.
    apply NoDup_app; split_and!; [done| |apply NoDup_singleton].
    intros x Hx Hx'. simpl in Hx'. apply list_elem_of_singleton in Hx'. by subst.
Qed.

Lemma keys_update_notified k t : keys (update_notified k t) = keys t.
Proof.
  unfold keys, update_notified. induction t as [|r t IH]; [done|].
  simpl. f_equal; [|done]. by case_decide.
Qed.

Lemma unique_keys_update k t :
  unique_keys t → unique_keys (update_notified k t).
Proof. unfold unique_keys. by rewrite keys_update_notified. Qed.

Lemma length_update_notified k t : length (update_notified k t) = length t.
Proof. apply length_map. Qed.


Lemma table_le_refl t : table_le t t.
Proof. induction t; constructor; auto. Qed.

Lemma table_le_trans t1 t2 t3 :
  table_le t1 t2 → table_le t2 t3 → table_le t1 t3.
Proof.
  intros H12. revert t3.
  induction H12 as [|r r' t t' Hk Hn _ IH]; intros t3 H23; [constructor|].
  inversion H23 as [|? r'' ? t'' Hk' Hn' Hle]; subst.
  constructor; [congruence|auto|auto].
Qed.

Lemma table_le_app t ext : table_le t (t ++ ext).
Proof. induction t; simpl; constructor; auto. Qed.

Lemma table_le_insert k t : table_le t (insert_or_ignore k t).
Proof.
  unfold insert_or_ignore.
  destruct (_ && _); [apply table_le_refl|apply table_le_app].
Qed.

Lemma table_le_update k t : table_le t (update_notified k t).
Proof.
  induction t as [|r t IH]; [constructor|].
  unfold update_notified; simpl. constructor; [|intro|exact IH];
    by case_decide.
Qed.

(** A table that grew keeps the earlier keys, in place, as a prefix. *)
Lemma table_le_keys_prefix t t' : table_le t t' → keys t `prefix_of` keys t'.
Proof.
  induction 1 as [|r r' t t' Hk Hn _ IH]; simpl.
  - apply prefix_nil.
  - rewrite Hk. by apply prefix_cons.
Qed.

Lemma table_le_length t t' : table_le t t' → (length t ≤ length t')%nat.
Proof. induction 1; simpl; lia. Qed.

Lemma table_le_lookup t t' (i : nat) r :
  table_le t t' → t !! i = Some r →
  ∃ r', t' !! i = Some r' ∧ key r' = key r ∧
        (notified r = true → notified r' = true).
Proof.
  intros Hle. revert i. induction Hle as [|r0 r0' t t' Hk Hn _ IH]; intros i Hi.
  - done.
  - destruct i as [|i]; simpl in *.
    + inversion Hi; subst. eauto.
    + eauto.
Qed.

Lemma elem_of_select_unnotified k t :
  k ∈ select_unnotified t ↔ ∃ r, r ∈ t ∧ key r = k ∧ notified r = false.
Proof.
  unfold select_unnotified. rewrite elem_of_keys.
  split.
  - intros (r & Hr & Hk). apply list_elem_of_filter in Hr as [Hn Hr]. eauto.
  - intros (r & Hr & Hk & Hn). exists r. split; [|done].
    apply list_elem_of_filter. done.
Qed.

Lemma marked_not_selected k t : marked k t → k ∉ select_unnotified t.
Proof.
  intros [_ Hm] Hin. apply elem_of_select_unnotified in Hin.
  destruct Hin as (r & Hr & Hk & Hn). specialize (Hm r Hr Hk). congruence.
Qed.

Lemma marked_insert k k' t : marked k t → marked k (insert_or_ignore k' t).
Proof.
  intros [Hin Hm]. destruct (decide (k' ∈ keys t)) as [Hk|Hk].
  - by rewrite insert_or_ignore_present.
  - rewrite insert_or_ignore_absent by done. split.
    + rewrite keys_app. apply elem_of_app. by left.
    + intros r Hr Hkr. apply elem_of_app in Hr as [Hr|Hr]; [by apply Hm|].
      apply list_elem_of_singleton in Hr. subst r; simpl in *. by subst.
Qed.

Lemma marked_update k k' t : marked k t → marked k (update_notified k' t).
Proof.
  intros [Hin Hm]. split; [by rewrite keys_update_notified|].
  intros r Hr Hkr. unfold update_notified in Hr.
  apply list_elem_of_fmap in Hr as (r0 & -> & Hr0).
  case_decide; [done|]. by apply Hm.
Qed.

Lemma update_notified_marks k t : k ∈ keys t → marked k (update_notified k t).
Proof.
  intros Hin. split; [by rewrite keys_update_notified|].
  intros r Hr Hkr. unfold update_notified in Hr.
  apply list_elem_of_fmap in Hr as (r0 & -> & Hr0).
  case_decide; [done|]. simpl in *. done.
Qed.

End TableFacts.

(** * Reasoning in the monad *)

Lemma bind_ok {A B} (m : M A) (k : A → M B) st a st' :
  m st = (Ok a, st') → (m ≫= k) st = k a st'.
Proof. intros Hm. unfold mbind, M_bind. by rewrite Hm. Qed.

Lemma bind_raise {A B} (m : M A) (k : A → M B) st e st' :
  m st = (Raise e, st') → (m ≫= k) st = (Raise e, st').
Proof. intros Hm. unfold mbind, M_bind. by rewrite Hm. Qed.

Lemma for_each_app {A} (l1 l2 : list A) (body : A → M unit) st st' :
  for_each l1 body st = (Ok tt, st') →
  for_each (l1 ++ l2) body st = for_each l2 body st'.
Proof.
  revert st. induction l1 as [|x l1 IH]; intros st Hl1; simpl in *.
  - by inversion Hl1.
  - unfold mbind, M_bind in *.
    destruct (body x st) as [[[]|e] st1]; [by apply IH|done].
Qed.

(** ** Computations that respect a preorder on states *)

Section Respects.
Variable R : relation State.
Context `{!PreOrder R}.

Lemma respects_ret {A} (a : A) : respects R (mret a).
Proof. intros st. simpl. reflexivity. Qed.

Lemma respects_raise {A} (e : exn) : respects R (raise (A:=A) e).
Proof. intros st. simpl. reflexivity. Qed.

Lemma respects_lift {A} (r : result A) : respects R (lift r).
Proof. intros st. simpl. reflexivity. Qed.

Lemma respects_bind {A B} (m : M A) (k : A → M B) :
  respects R m → (∀ a, respects R (k a)) → respects R (m ≫= k).
Proof.
  intros Hm Hk st. unfold mbind, M_bind.
  specialize (Hm st). destruct (m st) as [[a|e] st1]; simpl in *; [|done].
  etrans; [exact Hm|apply Hk].
Qed.

Lemma respects_for_each {A} (l : list A) (body : A → M unit) :
  (∀ x, respects R (body x)) → respects R (for_each l body).
Proof.
  intros Hb. induction l as [|x l IH]; simpl.
  - apply respects_ret.
  - apply respects_bind; auto.
Qed.

Lemma respects_try_except (body : M unit) (handler : exn → M unit) :
  respects R body → (∀ e, respects R (handler e)) →
  respects R (try_except body handler).
Proof.
  intros Hb Hh st. unfold try_except.
  specialize (Hb st). destruct (body st) as [[[]|e] st1]; simpl in *; [done|].
  etrans; [exact Hb|apply Hh].
Qed.

Lemma respects_if {A} (b : bool) (m1 m2 : M A) :
  respects R m1 → respects R m2 → respects R (if b then m1 else m2).
Proof. by destruct b. Qed.

End Respects.

(** ** The relations on states that come from the tables *)

Section StateRel.
Variable T : ∀ f, relation (table (fkey f)).
Hypothesis T_refl : ∀ f t, T f t t.
Hypothesis T_trans : ∀ f t1 t2 t3, T f t1 t2 → T f t2 t3 → T f t1 t3.
Variable P : ∀ f, fkey f → Prop.
Hypothesis P_solana : ∀ k, P SolanaClusters k.
Hypothesis P_github : ∀ k, P GithubVersions k.
Hypothesis P_programs : ∀ n c v, v ≠ 0%Z → P Programs (n, c, v).
Hypothesis T_insert : ∀ f k t, P f k → T f t (insert_or_ignore k t).

#[local] Instance state_rel_preorder : PreOrder (state_rel T).
Proof.
  split.
  - intros st s Hs. exists s. split; [done|]. intros f. apply T_refl.
  - intros st1 st2 st3 H12 H23 s Hs.
    destruct (H12 s Hs) as (s2 & Hs2 & HT2).
    destruct (H23 s2 Hs2) as (s3 & Hs3 & HT3).
    exists s3. split; [done|]. intros f. eapply T_trans; eauto.
Qed.

Lemma state_rel_same_db st st' :
  versions_db st' = versions_db st → state_rel T st st'.
Proof.
  intros Heq s Hs. exists s. split; [congruence|]. intros f. apply T_refl.
Qed.

Lemma get_set_table_eq f (t : table (fkey f)) s :
  get_table f (set_table f t s) = t.
Proof. by destruct f. Qed.

Lemma get_set_table_ne f f' (t : table (fkey f)) s :
  f ≠ f' → get_table f' (set_table f t s) = get_table f' s.
Proof. by destruct f, f'. Qed.

Lemma respects_print line : respects (state_rel T) (print line).
Proof. intros st. by apply state_rel_same_db. Qed.

Lemma respects_connect : respects (state_rel T) sqlite3_connect.
Proof.
  intros st. unfold sqlite3_connect.
  destruct (versions_db st) eqn:E; simpl.
  - intros s Hs. congruence.
  - reflexivity.
Qed.

Lemma respects_the_table f : respects (state_rel T) (the_table f).
Proof.
  intros st. unfold the_table.
  destruct (versions_db st) as [|[s|]]; simpl; reflexivity.
Qed.

Lemma respects_put_table f t st s :
  versions_db st = DbFile (Some s) →
  T f (get_table f s) t →
  state_rel T st (put_table f t st).2.
Proof.
  intros Hs HT. unfold put_table. rewrite Hs. simpl.
  intros s0 Hs0. rewrite Hs in Hs0. inversion Hs0; subst s0.
  eexists. split; [done|]. intros f'.
  destruct f, f'; simpl in *; first [exact HT|apply T_refl].
Qed.

Lemma respects_insert f k :
  P f k → respects (state_rel T) (execute_insert_or_ignore f k).
Proof.
  intros HP st. unfold execute_insert_or_ignore, mbind, M_bind, the_table.
  destruct (versions_db st) as [|[s|]] eqn:E; simpl; try reflexivity.
  apply respects_put_table with s; [done|by apply T_insert].
Qed.


Lemma respects_select f :
  respects (state_rel T) (execute_select_unnotified f).
Proof.
  apply respects_bind; [apply _|apply respects_the_table|].
  intros t. apply respects_ret, _.
Qed.

Lemma respects_executescript : respects (state_rel T) executescript_schema.
Proof.
  intros st. unfold executescript_schema.
  destruct (versions_db st) as [|[s|]] eqn:E; simpl; try reflexivity.
  intros s Hs. congruence.
Qed.

Lemma respects_send w channel message blocks :
  respects (state_rel T) (send_slack_notification w channel message blocks).
Proof.
  intros st. unfold send_slack_notification.
  destruct (requests_post _ _ _); by apply state_rel_same_db.
Qed.

(** Every function of the program respects the relation. *)

Ltac respects_step :=
  first
    [ apply respects_print
    | apply respects_connect
    | apply respects_insert;
        first [apply P_solana|apply P_github|assumption]
    | apply respects_select
    | apply respects_executescript
    | apply respects_send
    | apply respects_ret, _
    | apply respects_raise, _
    | apply respects_lift, _
    | apply respects_if
    | apply respects_for_each; [apply _|intros ?]
    | apply respects_try_except; [apply _| |intros ?]
    | apply respects_bind; [apply _| |intros ?] ].

Lemma respects_init_db : respects (state_rel T) init_db.
Proof.
  unfold init_db, db_commit. respects_step.
  - intros st. reflexivity.
  - repeat respects_step. intros st. unfold open_schema_sql.
    destruct (schema_sql_exists st); reflexivity.
Qed.

Lemma respects_save_solana c v :
  respects (state_rel T) (save_solana_cluster_versions c v).
Proof. unfold save_solana_cluster_versions, db_commit. repeat respects_step. Qed.

Lemma respects_save_github n v :
  respects (state_rel T) (save_github_versions n v).
Proof. unfold save_github_versions, db_commit. repeat respects_step. Qed.

Lemma respects_save_program n v c :
  P Programs (n, c, v) → respects (state_rel T) (save_program_version n v c).
Proof.
  intros HP. unfold save_program_version, db_commit. repeat respects_step.
Qed.



Lemma respects_get_solana w endpoint :
  respects (state_rel T) (get_solana_cluster_versions w endpoint).
Proof. unfold get_solana_cluster_versions. repeat respects_step. Qed.

Lemma respects_get_github w repo_name :
  respects (state_rel T) (get_github_versions w repo_name).
Proof. unfold get_github_versions. repeat respects_step. Qed.


Lemma respects_pubkey w a : respects (state_rel T) (pubkey w a).
Proof. destruct a; simpl; respects_step. Qed.

Lemma respects_parsed_info v : respects (state_rel T) (parsed_info v).
Proof. destruct v as [[|[i|]]|]; simpl; respects_step. Qed.

Lemma respects_get_program_last_update w endpoint a :
  respects (state_rel T) (get_program_last_update w endpoint a).
Proof.
  unfold get_program_last_update.
  repeat first [apply respects_pubkey|apply respects_parsed_info|respects_step].
Qed.

Lemma respects_check_program w c e entry :
  respects (state_rel T) (check_program w c e entry).
Proof.
  unfold check_program. destruct entry as [program_name addr].
  respects_step; [apply respects_get_program_last_update|].
  destruct a as [version|]; simpl; [|respects_step].
  destruct (Z.eqb_spec version 0); simpl; [respects_step|].
  by apply respects_save_program, P_programs.
Qed.

Lemma respects_check_chain_programs cfg w :
  respects (state_rel T) (check_chain_programs cfg w).
Proof.
  unfold check_chain_programs. respects_step.
  destruct x as [cluster_name endpoint]. unfold check_cluster_programs.
  respects_step. apply respects_check_program.
Qed.

Lemma respects_check_github cfg w :
  respects (state_rel T) (check_github_versions cfg w).
Proof.
  unfold check_github_versions. respects_step.
  destruct x as [program_name repo_name]. unfold check_repository.
  respects_step; [apply respects_get_github|apply respects_save_github].
Qed.



(** With the [UPDATE] too, every call respects the relation. *)
Hypothesis T_update : ∀ f k t, T f t (update_notified k t).

Lemma respects_update f k :
  respects (state_rel T) (execute_update_notified f k).
Proof.
  intros st. unfold execute_update_notified, mbind, M_bind, the_table.
  destruct (versions_db st) as [|[s|]] eqn:E; simpl; try reflexivity.
  apply respects_put_table with s; [done|apply T_update].
Qed.

Ltac respects_all :=
  first [apply respects_update|respects_step].

Lemma respects_notify_line cfg w f line :
  respects (state_rel T) (notify_line cfg w f line).
Proof.
  unfold notify_line. repeat respects_all.
  destruct a as [message blocks]. repeat respects_all.
Qed.

Lemma respects_notify cfg w f : respects (state_rel T) (notify cfg w f).
Proof.
  unfold notify, db_commit.
  repeat first [apply respects_notify_line|respects_all].
Qed.

Lemma respects_check_solana cfg w : respects (state_rel T) (check_solana cfg w).
Proof.
  unfold check_solana, notify_solana_cluster_versions.
  respects_all; [|apply respects_notify].
  respects_all. destruct x as [cluster_name endpoint]. unfold check_cluster.
  respects_all; [apply respects_get_solana|apply respects_save_solana].
Qed.

Lemma respects_main cfg w : respects (state_rel T) (main cfg w).
Proof.
  unfold main, notify_github_versions, notify_programs_version.
  repeat first
    [ apply respects_init_db | apply respects_check_solana
    | apply respects_check_chain_programs | apply respects_check_github
    | apply respects_notify
    | apply respects_bind; [apply _| |intros ?] ].
Qed.

Lemma respects_call cfg w c :
  call_inserts P c → respects (state_rel T) (run_call cfg w c).
Proof.
  intros HP. destruct c; simpl in *;
    first
      [ apply respects_init_db | apply respects_save_solana
      | apply respects_save_github | by apply respects_save_program
      | apply respects_notify_line | apply respects_notify
      | apply respects_check_solana | apply respects_check_chain_programs
      | apply respects_check_github | apply respects_main
      | by apply respects_insert | apply respects_update ].
Qed.

Lemma later_state_rel st st' :
  (∀ f k, P f k) → later st st' → state_rel T st st'.
Proof.
  intros HP. induction 1 as [st|st1 st2 st3 Hstep _ IH]; [reflexivity|].
  etrans; [|exact IH]. destruct Hstep as [cfg w c st]. apply respects_call.
  destruct c; simpl; auto.
Qed.

End StateRel.

(** * What any number of calls preserves *)

Lemma later_grows st st' : later st st' → grows st st'.
Proof.
  apply later_state_rel with (P := λ _ _, True); auto.
  - intros f. apply table_le_refl.
  - intros f. apply table_le_trans.
  - intros f k t _. apply table_le_insert.
  - intros f. apply table_le_update.
Qed.

Lemma later_keeps_unique st st' : later st st' → keeps_unique st st'.
Proof.
  apply later_state_rel with (P := λ _ _, True); auto.
  - intros f k t _. apply unique_keys_insert.
  - intros f k t. apply unique_keys_update.
Qed.

Lemma later_keeps_marked st st' : later st st' → keeps_marked st st'.
Proof.
  apply later_state_rel with (P := λ _ _, True); auto.
  - intros f k t _ k'. apply marked_insert.
  - intros f k t k'. apply marked_update.
Qed.

(** * The ledger operations on a state with its tables *)

Lemma rows_Some f st t :
  rows f st = Some t ↔
  ∃ s, versions_db st = DbFile (Some s) ∧ t = get_table f s.
Proof.
  unfold rows. destruct (versions_db st) as [|[s|]]; split.
  all: try (intros (s0 & Hs0 & _); discriminate).
  all: try discriminate.
  - intros [= <-]. eauto.
  - intros (s0 & [= <-] & ->). done.
Qed.

Lemma with_db_same st : with_db (versions_db st) st = st.
Proof. by destruct st. Qed.

Lemma set_get_table f s : set_table f (get_table f s) s = s.
Proof. by destruct f, s. Qed.

Lemma fetchUnnotified_eval f st t :
  rows f st = Some t → fetchUnnotified f st = (Ok (select_unnotified t), st).
Proof.
  intros (s & Hs & ->)%rows_Some.
  unfold fetchUnnotified, execute_select_unnotified, mbind, M_bind, the_table.
  by rewrite Hs.
Qed.

Lemma markNotified_eval f k st s :
  versions_db st = DbFile (Some s) →
  markNotified f k st =
  (Ok tt,
   with_db (DbFile (Some (set_table f (update_notified k (get_table f s)) s)))
     st).
Proof.
  intros Hs.
  unfold markNotified, execute_update_notified, mbind, M_bind, the_table,
    put_table.
  rewrite Hs. simpl. by rewrite Hs.
Qed.

Lemma recordIfAbsent_eval f k st s :
  versions_db st = DbFile (Some s) →
  recordIfAbsent f k st =
  (Ok tt,
   with_db (DbFile (Some (set_table f (insert_or_ignore k (get_table f s)) s)))
     st).
Proof.
  intros Hs.
  unfold recordIfAbsent, execute_insert_or_ignore, mbind, M_bind, the_table,
    put_table.
  rewrite Hs. simpl. by rewrite Hs.
Qed.

(** * Notify-once *)

(** C1.  Once [markNotified] has run for a row that exists, then after any
    number of later calls of the program (whole runs or parts of one, under
    any configuration and any behaviour of the outside world) every row of
    that key is still notified, and [fetchUnnotified] returns without the
    key. *)
Theorem notify_once f (k : fkey f) st st' t :
  rows f st = Some t → k ∈ keys t →
  later (markNotified f k st).2 st' →
  ∃ t', rows f st' = Some t' ∧ marked k t' ∧
        ∃ lines, fetchUnnotified f st' = (Ok lines, st') ∧ k ∉ lines.
Proof.
  intros (s & Hs & ->)%rows_Some Hk Hlater.
  rewrite (markNotified_eval f k st s Hs) in Hlater. simpl in Hlater.
  apply later_keeps_marked in Hlater.
  destruct (Hlater _ eq_refl) as (s' & Hs' & HT).
  specialize (HT f k). rewrite get_set_table_eq in HT.
  specialize (HT (update_notified_marks k _ Hk)).
  assert (rows f st' = Some (get_table f s')) as Hrows.
  { apply rows_Some. eauto. }
  exists (get_table f s'). split_and!; [done|done|].
  exists (select_unnotified (get_table f s')).
  split; [by apply fetchUnnotified_eval|by apply marked_not_selected].
Qed.

(** * The loop of a notifier *)

Section NotifyTable.
Context {K : Type} `{EqDecision K}.
Implicit Types (t : table K) (k : K).

Lemma filter_all {A} (P : A → Prop) `{∀ x, Decision (P x)} (l : list A) :
  (∀ x, P x) → filter P l = l.
Proof.
  intros HP. induction l as [|x l IH]; [done|].
  rewrite filter_cons, decide_True by done. by rewrite IH.
Qed.


(** What is left to notify after an [UPDATE]: the same keys in the same
    order, without the key of the update. *)
Lemma select_unnotified_update k t :
  select_unnotified (update_notified k t) =
  filter (λ k', k' ≠ k) (select_unnotified t).
Proof.
  unfold select_unnotified, update_notified, keys.
  induction t as [|[kr nr] t IH]; [done|].
  cbn [map key notified]. rewrite !filter_cons.
  destruct (decide (kr = k)) as [->|Hk], nr; cbn [key notified];
    repeat first [rewrite decide_True by done|rewrite decide_False by done];
    cbn [map key]; rewrite ?filter_cons;
    repeat first
      [ rewrite decide_True by done
      | rewrite decide_False by (by intros ?) ];
    by rewrite IH.
Qed.

Lemma keys_notify_table (ok : K → bool) lines t :
  keys (notify_table ok lines t) = keys t.
Proof.
  revert t. induction lines as [|k lines IH]; intros t; [done|].
  simpl. rewrite IH. destruct (ok k); [apply keys_update_notified|done].
Qed.

(** What is left to notify after the loop: the keys that were to notify,
    in the same order, without the lines whose dispatch succeeded. *)
Lemma select_unnotified_notify_table (ok : K → bool) lines t :
  select_unnotified (notify_table ok lines t) =
  filter (λ k, ¬ (ok k = true ∧ k ∈ lines)) (select_unnotified t).
Proof.
  revert t. induction lines as [|k lines IH]; intros t; simpl.
  - symmetry. apply filter_all. intros k [_ Hin].
    by apply not_elem_of_nil in Hin.
  - rewrite IH. destruct (ok k) eqn:Hok.
    + rewrite select_unnotified_update, list_filter_filter.
      apply list_filter_iff. intros k'. rewrite elem_of_cons. split.
      * intros [Hn Hne] [Hok' [->|Hin]]; [done|]. apply Hn; auto.
      * intros Hn. split; [intros [? ?]|intros ->]; apply Hn; auto.
    + apply list_filter_iff. intros k'. rewrite elem_of_cons. split.
      * intros Hn [Hok' [->|Hin]]; [congruence|]. apply Hn; auto.
      * intros Hn [Hok' Hin]. apply Hn; auto.
Qed.

End NotifyTable.

Lemma set_set_table f (t t' : table (fkey f)) s :
  set_table f t' (set_table f t s) = set_table f t' s.
Proof. by destruct f. Qed.

(** One line of a notifier: the body is posted when the message can be
    built, the row is updated when the dispatch succeeded, and the line never
    raises. *)
Lemma notify_line_spec cfg w f k st s :
  versions_db st = DbFile (Some s) →
  ∃ st', notify_line cfg w f k st = (Ok tt, st') ∧
    versions_db st' =
      DbFile (Some (if dispatch_ok cfg w f k
                    then set_table f (update_notified k (get_table f s)) s
                    else s)) ∧
    posted st' = posted st ++ option_list (body_of cfg f k).
Proof.
  intros Hs.
  unfold notify_line, try_except, dispatch_ok, body_of, mbind, M_bind, lift.
  destruct (slack_message cfg f k) as [[message blks]|e]; simpl.
  - unfold send_slack_notification.
    destruct (requests_post _ _ _) as [status|e]; simpl.
    + unfold execute_update_notified, mbind, M_bind, the_table, put_table.
      simpl. rewrite Hs. simpl.
      eexists. split; [done|]. simpl. done.
    + eexists. split; [done|]. simpl. done.
  - eexists. split; [done|]. simpl. by rewrite app_nil_r.
Qed.

Lemma notify_loop_spec cfg w f lines st s :
  versions_db st = DbFile (Some s) →
  ∃ st', for_each lines (notify_line cfg w f) st = (Ok tt, st') ∧
    versions_db st' =
      DbFile (Some (set_table f
        (notify_table (dispatch_ok cfg w f) lines (get_table f s)) s)) ∧
    posted st' = posted st ++ attempts cfg f lines.
Proof.
  revert st s. induction lines as [|k lines IH]; intros st s Hs.
  - exists st. simpl. rewrite set_get_table, app_nil_r. done.
  - destruct (notify_line_spec cfg w f k st s Hs) as (st1 & Hrun & Hdb & Hp).
    destruct (IH st1 _ Hdb) as (st2 & Hrun2 & Hdb2 & Hp2).
    exists st2. split_and!.
    + simpl. by rewrite (bind_ok _ _ _ _ _ Hrun).
    + rewrite Hdb2. simpl. destruct (dispatch_ok cfg w f k); [|done].
      by rewrite get_set_table_eq, set_set_table.
    + rewrite Hp2, Hp. unfold attempts. simpl.
      destruct (body_of cfg f k); simpl; by rewrite <- app_assoc.
Qed.

(** A notifier on a file with its tables: it returns, one body is posted
    per line it fetched whose message can be built, and what is left to
    notify are the lines whose dispatch failed. *)
Lemma notify_spec cfg w f st s :
  versions_db st = DbFile (Some s) →
  let lines := select_unnotified (get_table f s) in
  ∃ st', notify cfg w f st = (Ok tt, st') ∧
    versions_db st' =
      DbFile (Some (set_table f
        (notify_table (dispatch_ok cfg w f) lines (get_table f s)) s)) ∧
    posted st' = posted st ++ attempts cfg f lines.
Proof.
  intros Hs lines.
  destruct (notify_loop_spec cfg w f lines st s Hs) as (st' & Hrun & Hdb & Hp).
  exists st'. split; [|done].
  unfold notify, db_commit, sqlite3_connect, execute_select_unnotified,
    mbind, M_bind, the_table.
  rewrite Hs. simpl. rewrite Hs. simpl. fold lines.
  unfold mbind, M_bind in Hrun. by rewrite Hrun.
Qed.


Lemma select_unnotified_app {K} (t1 t2 : table K) :
  select_unnotified (t1 ++ t2) = select_unnotified t1 ++ select_unnotified t2.
Proof. unfold select_unnotified, keys. by rewrite filter_app, map_app. Qed.

Lemma elem_of_attempts cfg f (lines : list (fkey f)) k body :
  k ∈ lines → body_of cfg f k = Some body → body ∈ attempts cfg f lines.
Proof.
  intros Hk Hb. unfold attempts. apply list_elem_of_omap. eauto.
Qed.

(** * Dispatch failure *)


(** * Idempotent insert *)

Section CountKey.
Context {K : Type} `{EqDecision K}.
Implicit Types (t : table K) (k : K).



End CountKey.



(** * Order of the fetch *)

Section Order.
Context {K : Type} `{EqDecision K}.
Implicit Types (t : table K) (k : K).

Lemma table_le_split t0 t :
  table_le t0 t → ∃ ta tb, t = ta ++ tb ∧ keys ta = keys t0.
Proof.
  induction 1 as [ext|r r' t0 t Hk Hn _ (ta & tb & -> & Hkeys)].
  - by exists [], ext.
  - exists (r' :: ta), tb. split; [done|]. simpl. by rewrite Hkeys, Hk.
Qed.

Lemma select_unnotified_keys k t : k ∈ select_unnotified t → k ∈ keys t.
Proof.
  intros (r & Hr & Hk & _)%elem_of_select_unnotified.
  apply elem_of_keys. eauto.
Qed.

Lemma select_unnotified_NoDup t : unique_keys t → NoDup (select_unnotified t).
Proof.
  unfold unique_keys, select_unnotified, keys.
  induction t as [|r t IH]; intros Hu; [constructor|].
  simpl in Hu. apply NoDup_cons in Hu as [Hr Hu].
  rewrite filter_cons. destruct (decide (notified r = false)); [|by apply IH].
  simpl. apply NoDup_cons. split; [|by apply IH].
  intros Hin. apply Hr. by apply (select_unnotified_keys (key r) t).
Qed.

(** A key that had a row before comes, in the fetch, before a key whose
    row came later. *)
Lemma select_unnotified_order t0 t k1 k2 :
  table_le t0 t → unique_keys t →
  k1 ∈ keys t0 → k2 ∉ keys t0 →
  k1 ∈ select_unnotified t → k2 ∈ select_unnotified t →
  ∃ l1 l2 l3, select_unnotified t = l1 ++ k1 :: l2 ++ k2 :: l3.
Proof.
  intros (ta & tb & -> & Hkeys)%table_le_split Hu H1 H2 Hs1 Hs2.
  unfold unique_keys in Hu. rewrite keys_app, Hkeys in Hu.
  apply NoDup_app in Hu as (_ & Hdisj & _).
  rewrite select_unnotified_app in *.
  apply elem_of_app in Hs1 as [Hs1|Hs1]; last first.
  { exfalso. apply (Hdisj k1 H1). by apply select_unnotified_keys. }
  apply elem_of_app in Hs2 as [Hs2|Hs2].
  { exfalso. apply H2. rewrite <- Hkeys. by apply select_unnotified_keys. }
  apply list_elem_of_split in Hs1 as (l1 & l2 & ->).
  apply list_elem_of_split in Hs2 as (l2' & l3 & ->).
  exists l1, (l2 ++ l2'), l3. by rewrite <- !app_assoc.
Qed.

End Order.

(** C5.  On a store whose keys are unique, at any later time
    [fetchUnnotified] returns the keys of exactly the rows with
    [notified = 0], each once, and in insertion order: a key that had a row
    at the earlier time comes before a key whose row was inserted after. *)
Theorem fetch_in_insertion_order f st0 st t0 :
  rows f st0 = Some t0 → unique_keys t0 → later st0 st →
  ∃ t lines,
    rows f st = Some t ∧
    fetchUnnotified f st = (Ok lines, st) ∧
    (∀ k, k ∈ lines ↔ ∃ r, r ∈ t ∧ key r = k ∧ notified r = false) ∧
    NoDup lines ∧
    ∀ k1 k2 : fkey f,
      k1 ∈ keys t0 → k2 ∉ keys t0 → k1 ∈ lines → k2 ∈ lines →
      ∃ l1 l2 l3, lines = l1 ++ k1 :: l2 ++ k2 :: l3.
Proof.
  intros (s0 & Hs0 & ->)%rows_Some Hu Hlater.
  destruct (later_grows _ _ Hlater _ Hs0) as (s & Hs & Hle).
  destruct (later_keeps_unique _ _ Hlater _ Hs0) as (s' & Hs' & Hun).
  assert (s' = s) as -> by congruence.
  specialize (Hle f). specialize (Hun f Hu).
  assert (rows f st = Some (get_table f s)) as Hrows.
  { apply rows_Some. eauto. }
  exists (get_table f s), (select_unnotified (get_table f s)).
  split_and!; [done|by apply fetchUnnotified_eval| | |].
  - intros k. apply elem_of_select_unnotified.
  - by apply select_unnotified_NoDup.
  - intros k1 k2. by apply select_unnotified_order.
Qed.

(** * Frame of [markNotified] *)



(** * The tally of the cluster versions *)

Section Dict.
Context {V : Type}.
Implicit Types (d : dict V) (k : string) (v : V).

Lemma dict_get_set d k v k' :
  dict_get (dict_set d k v) k' =
  if decide (k = k') then Some v else dict_get d k'.
Proof.
  induction d as [|[k0 v0] d IH]; simpl.
  - by destruct (decide (k = k')).
  - destruct (decide (k0 = k)) as [->|Hne]; simpl.
    + by destruct (decide (k = k')).
    + destruct (decide (k0 = k')) as [->|Hne'].
      * by rewrite decide_False by done.
      * exact IH.
Qed.

Lemma dict_get_keys d k : k ∈ dict_keys d ↔ is_Some (dict_get d k).
Proof.
  unfold dict_keys. induction d as [|[k0 v0] d IH]; simpl.
  - split; [by intros ?%not_elem_of_nil|by intros [? ?]].
  - rewrite elem_of_cons. destruct (decide (k0 = k)) as [->|Hne].
    + split; [eauto|auto].
    + rewrite <- IH. split; [intros [?|?]; [congruence|done]|auto].
Qed.

Lemma dict_keys_set d k v :
  dict_keys (dict_set d k v) =
  if decide (k ∈ dict_keys d) then dict_keys d else dict_keys d ++ [k].
Proof.
  unfold dict_keys. induction d as [|[k0 v0] d IH].
  - cbn [dict_set map fst]. destruct (decide (k ∈ [])) as [Hin|]; [|done].
    by apply not_elem_of_nil in Hin.
  - cbn [dict_set]. destruct (decide (k0 = k)) as [->|Hne]; cbn [map fst].
    + destruct (decide (k ∈ k :: map fst d)) as [|Hin]; [done|].
      exfalso. apply Hin, list_elem_of_here.
    + rewrite IH.
      destruct (decide (k ∈ map fst d)) as [Hin|Hin],
        (decide (k ∈ k0 :: map fst d)) as [Hin'|Hin']; try done.
      * exfalso. apply Hin'. by apply list_elem_of_further.
      * apply elem_of_cons in Hin' as [?|?]; [congruence|done].
Qed.

Lemma dict_keys_set_NoDup d k v :
  NoDup (dict_keys d) → NoDup (dict_keys (dict_set d k v)).
Proof.
  intros Hd. rewrite dict_keys_set. case_decide as Hin; [done|].
  apply NoDup_app. split_and!; [done| |apply NoDup_singleton].
  intros x Hx ->%list_elem_of_singleton. done.
Qed.

End Dict.

Lemma count_nodes_cons v n nodes :
  count_nodes v (n :: nodes) =
  ((if decide (n = Some v) then 1 else 0) + count_nodes v nodes)%nat.
Proof.
  unfold count_nodes. rewrite filter_cons. by destruct (decide (n = Some v)).
Qed.

Lemma count_version_get versions n v :
  dict_get (count_version versions n) v =
  if decide (n = Some v)
  then Some (default 0 (dict_get versions v) + 1)%nat
  else dict_get versions v.
Proof.
  destruct n as [v'|]; cbn [count_version].
  - rewrite dict_get_set.
    destruct (decide (Some v' = Some v)) as [[= ->]|Hne'].
    + rewrite decide_True by done.
      destruct (dict_get versions v) eqn:E; [by rewrite E|].
      by rewrite dict_get_set, decide_True.
    + rewrite decide_False by congruence.
      destruct (dict_get versions v') eqn:E; [done|].
      rewrite dict_get_set, decide_False; [done|congruence].
  - by destruct (decide (None = Some v)).
Qed.

Lemma count_version_NoDup versions n :
  NoDup (dict_keys versions) → NoDup (dict_keys (count_version versions n)).
Proof.
  intros Hd. destruct n as [v|]; simpl; [|done].
  apply dict_keys_set_NoDup. destruct (dict_get versions v); [done|].
  by apply dict_keys_set_NoDup.
Qed.

Lemma tally_get versions nodes v :
  dict_get (foldl count_version versions nodes) v =
  if decide (count_nodes v nodes = 0%nat) then dict_get versions v
  else Some (default 0 (dict_get versions v) + count_nodes v nodes)%nat.
Proof.
  revert versions. induction nodes as [|n nodes IH]; intros versions; [done|].
  cbn [foldl]. rewrite IH, count_nodes_cons, count_version_get.
  destruct (decide (n = Some v)) as [->|Hne]; [|done].
  destruct (decide (1 + count_nodes v nodes = 0)%nat) as [|_]; [lia|].
  destruct (decide (count_nodes v nodes = 0%nat)) as [->|Hc];
    cbn [default from_option id]; f_equal; unfold id; lia.
Qed.

Lemma tally_NoDup versions nodes :
  NoDup (dict_keys versions) →
  NoDup (dict_keys (foldl count_version versions nodes)).
Proof.
  revert versions. induction nodes as [|n nodes IH]; intros versions Hd;
    [done|].
  simpl. by apply IH, count_version_NoDup.
Qed.

Lemma count_nodes_zero v nodes : count_nodes v nodes = 0%nat ↔ Some v ∉ nodes.
Proof.
  induction nodes as [|n nodes IH].
  - split; [intros _; apply not_elem_of_nil|done].
  - rewrite count_nodes_cons, not_elem_of_cons.
    destruct (decide (n = Some v)) as [->|Hne]; simpl.
    + split; [lia|by intros [? _]].
    + rewrite IH. split; [by split|by intros [_ ?]].
Qed.

(** C8.  When the cluster answers with its nodes, the collector returns a
    dict in which each version that some node reports appears once, with
    the number of nodes that report it as its value; a node without a
    version counts for nothing, and a version no node reports is not a key.
    The state is not touched. *)
Theorem cluster_versions_tally w endpoint nodes st :
  get_cluster_nodes w endpoint = Ok nodes →
  ∃ versions,
    get_solana_cluster_versions w endpoint st = (Ok versions, st) ∧
    NoDup (dict_keys versions) ∧
    (∀ v, v ∈ dict_keys versions ↔ Some v ∈ nodes) ∧
    (∀ v, Some v ∈ nodes →
       dict_get versions v = Some (count_nodes v nodes) ∧
       (0 < count_nodes v nodes)%nat) ∧
    (∀ v, Some v ∉ nodes → dict_get versions v = None).
Proof.
  intros Hnodes. exists (foldl count_version [] nodes). split_and!.
  - unfold get_solana_cluster_versions, mbind, M_bind, lift.
    by rewrite Hnodes.
  - apply tally_NoDup. constructor.
  - intros v. rewrite dict_get_keys, tally_get. simpl.
    destruct (decide (count_nodes v nodes = 0%nat)) as [Hc|Hc].
    + split; [by intros [? ?]|]. intros Hin.
      by apply count_nodes_zero in Hc.
    + split; [|eauto]. intros _.
      destruct (decide (Some v ∈ nodes)) as [|Hn]; [done|].
      by apply count_nodes_zero in Hn.
  - intros v Hin. assert (count_nodes v nodes ≠ 0%nat) as Hc.
    { intros Hc. by apply count_nodes_zero in Hc. }
    rewrite tally_get, decide_False by done. simpl. split; [done|lia].
  - intros v Hn. apply count_nodes_zero in Hn.
    by rewrite tally_get, decide_True.
Qed.

(** * The program deployment collector *)

(** C7.  For a program and a cluster whose address resolves and whose
    primary account is returned with parsed metadata that lacks the
    [programData] reference, the collector yields nothing: the step of the
    pair returns without an error, the store and the messages posted are
    untouched, one line is printed, and the loop goes on with the remaining
    pairs. *)
Theorem skipped_program w cluster_name endpoint program_name addr a pk info
    rest st :
  resolve_address addr cluster_name = Some a →
  Pubkey_from_string w a = Ok pk →
  get_account_info_json_parsed w endpoint pk = Ok (Some (ParsedData info)) →
  lacks_program_data info →
  ∃ st',
    get_program_last_update w endpoint (Some a) st = (Ok None, st') ∧
    check_program w cluster_name endpoint (program_name, addr) st
      = (Ok tt, st') ∧
    versions_db st' = versions_db st ∧
    posted st' = posted st ∧
    stdout st' = stdout st ++ [CantFindProgramAccount] ∧
    for_each ((program_name, addr) :: rest)
        (check_program w cluster_name endpoint) st
      = for_each rest (check_program w cluster_name endpoint) st'.
Proof.
  intros Haddr Hpk Hacc Hlack.
  assert (∃ i, parsed_info (Some (ParsedData info)) st = (Ok i, st) ∧
               truthy_str (programData i) = false) as (i & Hi & Hfalse).
  { destruct info as [i|]; simpl in *; eauto. }
  assert (get_program_last_update w endpoint (Some a) st =
          (Ok None,
           {| versions_db := versions_db st;
              schema_sql_exists := schema_sql_exists st;
              posted := posted st;
              stdout := stdout st ++ [CantFindProgramAccount] |})) as Hget.
  { unfold get_program_last_update, pubkey, lift, mbind, M_bind.
    rewrite Hpk, Hacc, Hi, Hfalse. done. }
  assert (check_program w cluster_name endpoint (program_name, addr) st =
          (Ok tt,
           {| versions_db := versions_db st;
              schema_sql_exists := schema_sql_exists st;
              posted := posted st;
              stdout := stdout st ++ [CantFindProgramAccount] |})) as Hcheck.
  { unfold check_program. rewrite Haddr. by rewrite (bind_ok _ _ _ _ _ Hget). }
  eexists. split_and!; [exact Hget|exact Hcheck|done|done|done|].
  simpl. by rewrite (bind_ok _ _ _ _ _ Hcheck).
Qed.

(** C10.  For a program and a cluster whose executable-data account is
    resolved and returned, and reports slot 0 or no slot, nothing is
    recorded: the step of the pair returns without an error and leaves the
    state as it was, and the loop goes on with the remaining pairs.  More
    generally no run adds a row with slot 0 to [programs], whatever the
    outside world answers, so the notifier never has one to send. *)
Theorem slot_zero_not_recorded cfg w cluster_name endpoint program_name addr
    a pk i pa pk' info' rest st s :
  resolve_address addr cluster_name = Some a →
  Pubkey_from_string w a = Ok pk →
  get_account_info_json_parsed w endpoint pk
    = Ok (Some (ParsedData (Some i))) →
  programData i = Some pa → truthy_str (Some pa) = true →
  Pubkey_from_string w pa = Ok pk' →
  get_account_info_json_parsed w endpoint pk' = Ok (Some (ParsedData info')) →
  truthy_int (reported_slot info') = false →
  versions_db st = DbFile (Some s) →
  get_program_last_update w endpoint (Some a) st
    = (Ok (reported_slot info'), st) ∧
  check_program w cluster_name endpoint (program_name, addr) st = (Ok tt, st) ∧
  for_each ((program_name, addr) :: rest)
      (check_program w cluster_name endpoint) st
    = for_each rest (check_program w cluster_name endpoint) st ∧
  ∃ s', versions_db (main cfg w st).2 = DbFile (Some s') ∧
        ∀ name cluster, (name, cluster, 0%Z) ∈ keys (programs s') →
                        (name, cluster, 0%Z) ∈ keys (programs s).
Proof.
  intros Haddr Hpk Hacc Hpd Htruthy Hpk' Hacc' Hslot Hs.
  assert (get_program_last_update w endpoint (Some a) st =
          (Ok (reported_slot info'), st)) as Hget.
  { unfold get_program_last_update, pubkey, lift, mbind, M_bind.
    rewrite Hpk, Hacc. simpl. rewrite Hpd, Htruthy. simpl.
    rewrite Hpk', Hacc'. by destruct info'. }
  assert (check_program w cluster_name endpoint (program_name, addr) st =
          (Ok tt, st)) as Hcheck.
  { unfold check_program.
    rewrite Haddr, (bind_ok _ _ _ _ _ Hget). by rewrite Hslot. }
  split_and!; [done|done| |].
  - simpl. by rewrite (bind_ok _ _ _ _ _ Hcheck).
  - assert (no_new_zero_slot st (main cfg w st).2) as Hrel.
    { apply respects_main with (P := nonzero_slot).
      - intros f t k Hk _. done.
      - intros f t1 t2 t3 H12 H23 k Hk Hz. eauto.
      - done.
      - done.
      - intros n c v Hv. done.
      - intros f k t Hnz k' Hk' Hz.
        destruct (decide (k ∈ keys t)) as [Hin|Hin].
        + by rewrite insert_or_ignore_present in Hk'.
        + rewrite insert_or_ignore_absent, keys_app in Hk' by done.
          apply elem_of_app in Hk' as [Hk'|Hk']; [done|].
          simpl in Hk'. apply list_elem_of_singleton in Hk'. by subst.
      - intros f k t k' Hk' _. by rewrite keys_update_notified in Hk'. }
    destruct (Hrel s Hs) as (s' & Hs' & HT). exists s'. split; [done|].
    intros name cluster Hin. apply (HT Programs _ Hin). simpl. auto.
Qed.

(** * Store initialisation *)

Lemma init_db_new st :
  versions_db st = NoFile → schema_sql_exists st = true →
  init_db st = (Ok tt, with_db (DbFile (Some empty_store)) st).
Proof.
  intros Hdb Hschema.
  unfold init_db, path_exists, sqlite3_connect, open_schema_sql,
    executescript_schema, db_commit.
  repeat (unfold mbind, M_bind, mret, M_ret; simpl; rewrite ?Hdb, ?Hschema).
  done.
Qed.

Lemma init_db_present st d : versions_db st = DbFile d → init_db st = (Ok tt, st).
Proof.
  intros Hdb. unfold init_db, path_exists, mbind, M_bind. by rewrite Hdb.
Qed.

Lemma init_db_no_schema st :
  versions_db st = NoFile → schema_sql_exists st = false →
  init_db st = (Raise FileNotFoundError, with_db (DbFile None) st).
Proof.
  intros Hdb Hschema.
  unfold init_db, path_exists, sqlite3_connect, open_schema_sql,
    executescript_schema, db_commit.
  repeat (unfold mbind, M_bind, mret, M_ret; simpl; rewrite ?Hdb, ?Hschema).
  done.
Qed.

(** C9, as the code has it.  [init_db] looks at the file, not at the tables:
    when [versions.db] does not exist it creates the file and, [schema.sql]
    being readable, the three empty tables; when the file exists it does
    nothing, whether the file holds the tables or not, so it can be called
    on every run and a second call after a successful one changes nothing;
    when the schema cannot be created it raises, the file it has just
    created stays without tables, and the run stops there. *)
Theorem init_db_by_file st :
  (versions_db st = NoFile → schema_sql_exists st = true →
     init_db st = (Ok tt, with_db (DbFile (Some empty_store)) st)) ∧
  (∀ d, versions_db st = DbFile d → init_db st = (Ok tt, st)) ∧
  (∀ st', init_db st = (Ok tt, st') → init_db st' = (Ok tt, st')) ∧
  (versions_db st = NoFile → schema_sql_exists st = false →
     init_db st = (Raise FileNotFoundError, with_db (DbFile None) st) ∧
     ∀ cfg w,
       main cfg w st = (Raise FileNotFoundError, with_db (DbFile None) st)).
Proof.
  split_and!.
  - apply init_db_new.
  - apply init_db_present.
  - intros st' Hinit.
    destruct (versions_db st) as [|d] eqn:Hdb.
    + destruct (schema_sql_exists st) eqn:Hschema.
      * rewrite init_db_new in Hinit by done. inversion Hinit.
        by eapply init_db_present.
      * by rewrite init_db_no_schema in Hinit.
    + rewrite (init_db_present st d Hdb) in Hinit. inversion Hinit; subst.
      by eapply init_db_present.
  - intros Hdb Hschema. split; [by apply init_db_no_schema|].
    intros cfg w. unfold main.
    by rewrite (bind_raise _ _ _ _ _ (init_db_no_schema st Hdb Hschema)).
Qed.

(** * Failure of a collector *)

Lemma for_each_abort {A} (pre post : list A) (x : A) (body : A → M unit)
    st st1 st2 e :
  for_each pre body st = (Ok tt, st1) →
  body x st1 = (Raise e, st2) →
  for_each (pre ++ x :: post) body st = (Raise e, st2).
Proof.
  intros Hpre Hx. rewrite (for_each_app _ _ _ _ _ Hpre). simpl.
  by rewrite (bind_raise _ _ _ _ _ Hx).
Qed.

Lemma check_cluster_raise w c e err st :
  get_cluster_nodes w e = Raise err → check_cluster w (c, e) st = (Raise err, st).
Proof.
  intros Hq.
  unfold check_cluster, get_solana_cluster_versions, lift, mbind, M_bind.
  by rewrite Hq.
Qed.

Lemma check_repository_raise w n r err st :
  get_repo_tags w r = Raise err → check_repository w (n, r) st = (Raise err, st).
Proof.
  intros Hq.
  unfold check_repository, get_github_versions, lift, mbind, M_bind.
  by rewrite Hq.
Qed.

Lemma check_program_raise w c e n addr a pk err st :
  resolve_address addr c = Some a →
  Pubkey_from_string w a = Ok pk →
  get_account_info_json_parsed w e pk = Raise err →
  check_program w c e (n, addr) st = (Raise err, st).
Proof.
  intros Haddr Hpk Hq.
  unfold check_program, get_program_last_update, pubkey, lift, mbind, M_bind.
  by rewrite Haddr, Hpk, Hq.
Qed.

(** C4, as the code has it.  No collector catches the error of a query: the
    loop stops at the item whose query raises, the collector raises that
    error and the run ends with it.  The state is what the earlier stages
    and the earlier items of that collector left: their rows stay recorded;
    the later items, the later collectors and the later notifiers are not
    run. *)
Theorem collector_failure_aborts_run cfg w err st0 st :
  init_db st0 = (Ok tt, st) →
  (∀ pre c e post st1,
     SOLANA_CLUSTER_ENDPOINTS cfg = pre ++ (c, e) :: post →
     for_each pre (check_cluster w) st = (Ok tt, st1) →
     get_cluster_nodes w e = Raise err →
     check_solana cfg w st = (Raise err, st1) ∧
     main cfg w st0 = (Raise err, st1)) ∧
  (∀ st' cpre c e cpost st1 ppre n addr ppost st2 a pk,
     check_solana cfg w st = (Ok tt, st') →
     SOLANA_CLUSTER_ENDPOINTS cfg = cpre ++ (c, e) :: cpost →
     for_each cpre (check_cluster_programs cfg w) st' = (Ok tt, st1) →
     PROGRAM_ADDRESSES cfg = ppre ++ (n, addr) :: ppost →
     for_each ppre (check_program w c e) st1 = (Ok tt, st2) →
     resolve_address addr c = Some a →
     Pubkey_from_string w a = Ok pk →
     get_account_info_json_parsed w e pk = Raise err →
     check_chain_programs cfg w st' = (Raise err, st2) ∧
     main cfg w st0 = (Raise err, st2)) ∧
  (∀ st' st'' pre n r post st1,
     check_solana cfg w st = (Ok tt, st') →
     check_chain_programs cfg w st' = (Ok tt, st'') →
     GITHUB_ADDRESSES cfg = pre ++ (n, r) :: post →
     for_each pre (check_repository w) st'' = (Ok tt, st1) →
     get_repo_tags w r = Raise err →
     check_github_versions cfg w st'' = (Raise err, st1) ∧
     main cfg w st0 = (Raise err, st1)).
Proof.
  intros Hinit. split_and!.
  - intros pre c e post st1 Hcfg Hpre Hq.
    assert (check_solana cfg w st = (Raise err, st1)) as Hcs.
    { unfold check_solana. rewrite Hcfg.
      apply bind_raise. eapply for_each_abort; [exact Hpre|].
      by apply check_cluster_raise. }
    split; [done|]. unfold main.
    rewrite (bind_ok _ _ _ _ _ Hinit). by rewrite (bind_raise _ _ _ _ _ Hcs).
  - intros st' cpre c e cpost st1 ppre n addr ppost st2 a pk
      Hcs Hcfg Hcpre Hprogs Hppre Haddr Hpk Hq.
    assert (check_chain_programs cfg w st' = (Raise err, st2)) as Hcp.
    { unfold check_chain_programs. rewrite Hcfg.
      eapply for_each_abort; [exact Hcpre|].
      unfold check_cluster_programs. rewrite Hprogs.
      eapply for_each_abort; [exact Hppre|].
      by eapply check_program_raise. }
    split; [done|]. unfold main.
    rewrite (bind_ok _ _ _ _ _ Hinit), (bind_ok _ _ _ _ _ Hcs).
    by rewrite (bind_raise _ _ _ _ _ Hcp).
  - intros st' st'' pre n r post st1 Hcs Hcp Hcfg Hpre Hq.
    assert (check_github_versions cfg w st'' = (Raise err, st1)) as Hcg.
    { unfold check_github_versions. rewrite Hcfg.
      eapply for_each_abort; [exact Hpre|]. by apply check_repository_raise. }
    split; [done|]. unfold main.
    rewrite (bind_ok _ _ _ _ _ Hinit), (bind_ok _ _ _ _ _ Hcs).
    rewrite (bind_ok _ _ _ _ _ Hcp). by rewrite (bind_raise _ _ _ _ _ Hcg).
Qed.

(** * The properties at concrete inputs *)

(** A run from nothing: the file is created, every observation is recorded
    once and notified once. *)
Example first_run_records_and_notifies :
  ∃ st, main example_config calm_world no_file_state = (Ok tt, st) ∧
        rows Programs st
          = Some [Row ("metaplex", "devnet", 250000000%Z) true;
                  Row ("metaplex", "testnet", 250000000%Z) true;
                  Row ("metaplex", "mainnet-beta", 250000000%Z) true] ∧
        length (posted st) = 15%nat ∧
        (main example_config calm_world st).2 = st.
Proof. eexists. split_and!; vm_compute; reflexivity. Qed.

(** An answer of the channel with an error status is not a failure for the
    notifier: the call returned, the row is marked. *)
Example status_500_marks_notified :
  rows GithubVersions
    (notify example_config slack_500_world GithubVersions one_tag_state).2
  = Some [Row ("solana", "v1.16.0") true].
Proof. vm_compute. reflexivity. Qed.

Lemma notify_once_witness :
  let k : fkey GithubVersions := ("solana", "v1.16.0") in
  let st' :=
    (run_call example_config calm_world CallMain
       (markNotified GithubVersions k one_tag_state).2).2 in
  ∃ t', rows GithubVersions st' = Some t' ∧ marked k t' ∧
        ∃ lines, fetchUnnotified GithubVersions st' = (Ok lines, st') ∧
                 k ∉ lines.
Proof.
  intros k st'.
  apply (notify_once GithubVersions k one_tag_state st'
           (github_versions one_tag_store)).
  - reflexivity.
  - apply list_elem_of_here.
  - apply rtc_once, step_call.
Defined.



Lemma fetch_in_insertion_order_witness :
  let st :=
    (run_call example_config calm_world
       (CallInsert GithubVersions ("solana", "v1.17.0")) one_tag_state).2 in
  let t0 := github_versions one_tag_store in
  ∃ t lines,
    rows GithubVersions st = Some t ∧
    fetchUnnotified GithubVersions st = (Ok lines, st) ∧
    (∀ k, k ∈ lines ↔ ∃ r, r ∈ t ∧ key r = k ∧ notified r = false) ∧
    NoDup lines ∧
    ∀ k1 k2 : fkey GithubVersions,
      k1 ∈ keys t0 → k2 ∉ keys t0 → k1 ∈ lines → k2 ∈ lines →
      ∃ l1 l2 l3, lines = l1 ++ k1 :: l2 ++ k2 :: l3.
Proof.
  intros st t0.
  apply (fetch_in_insertion_order GithubVersions one_tag_state st t0).
  - reflexivity.
  - apply NoDup_singleton.
  - apply rtc_once, step_call.
Defined.


Lemma skipped_program_witness :
  ∃ st',
    get_program_last_update not_upgradeable_world
        "https://api.devnet.solana.com" (Some metaplex_address) ready_state
      = (Ok None, st') ∧
    check_program not_upgradeable_world "devnet"
        "https://api.devnet.solana.com"
        ("metaplex", Fixed metaplex_address) ready_state
      = (Ok tt, st') ∧
    versions_db st' = versions_db ready_state ∧
    posted st' = posted ready_state ∧
    stdout st' = stdout ready_state ++ [CantFindProgramAccount] ∧
    for_each [("metaplex", Fixed metaplex_address)]
        (check_program not_upgradeable_world "devnet"
           "https://api.devnet.solana.com") ready_state
      = for_each []
          (check_program not_upgradeable_world "devnet"
             "https://api.devnet.solana.com") st'.
Proof.
  apply (skipped_program not_upgradeable_world "devnet"
           "https://api.devnet.solana.com" "metaplex"
           (Fixed metaplex_address) metaplex_address metaplex_address
           (Some {| programData := None; slot := None |}) [] ready_state).
  - reflexivity.
  - reflexivity.
  - reflexivity.
  - reflexivity.
Defined.

Lemma cluster_versions_tally_witness :
  ∃ versions,
    get_solana_cluster_versions calm_world "https://api.devnet.solana.com"
        ready_state
      = (Ok versions, ready_state) ∧
    NoDup (dict_keys versions) ∧
    (∀ v, v ∈ dict_keys versions ↔
          Some v ∈ [Some "1.17.0"; None; Some "1.17.0"; Some "1.16.9"]) ∧
    (∀ v, Some v ∈ [Some "1.17.0"; None; Some "1.17.0"; Some "1.16.9"] →
       dict_get versions v
         = Some (count_nodes v
                   [Some "1.17.0"; None; Some "1.17.0"; Some "1.16.9"]) ∧
       (0 < count_nodes v
              [Some "1.17.0"; None; Some "1.17.0"; Some "1.16.9"])%nat) ∧
    (∀ v, Some v ∉ [Some "1.17.0"; None; Some "1.17.0"; Some "1.16.9"] →
       dict_get versions v = None).
Proof.
  apply (cluster_versions_tally calm_world "https://api.devnet.solana.com"
           [Some "1.17.0"; None; Some "1.17.0"; Some "1.16.9"] ready_state).
  reflexivity.
Defined.

(** The tally of the four nodes of [calm_world]. *)
Example cluster_versions_tally_example :
  get_solana_cluster_versions calm_world "https://api.devnet.solana.com"
      ready_state
  = (Ok [("1.17.0", 2%nat); ("1.16.9", 1%nat)], ready_state).
Proof. vm_compute. reflexivity. Qed.

Lemma init_db_by_file_witness :
  init_db no_file_state
    = (Ok tt, with_db (DbFile (Some empty_store)) no_file_state) ∧
  init_db empty_file_state = (Ok tt, empty_file_state).
Proof.
  split.
  - apply (proj1 (init_db_by_file no_file_state)); reflexivity.
  - apply (proj1 (proj2 (init_db_by_file empty_file_state)) None).
    reflexivity.
Defined.

(** C9, as the specification words it, fails: with [versions.db] present and without
    tables, and [schema.sql] readable, [init_db] returns and the tables are
    still absent. *)
Lemma init_db_leaves_tables_absent :
  ¬ (∀ st, schema_sql_exists st = true → rows Programs st = None →
           ∃ t, rows Programs (init_db st).2 = Some t).
Proof.
  intros Hall.
  destruct (Hall empty_file_state eq_refl eq_refl) as [t Ht].
  vm_compute in Ht. discriminate.
Qed.

Lemma slot_zero_not_recorded_witness :
  let endpoint := "https://api.devnet.solana.com" in
  let entry := ("metaplex", Fixed metaplex_address) in
  get_program_last_update slot_zero_world endpoint (Some metaplex_address)
      ready_state
    = (Ok (Some 0%Z), ready_state) ∧
  check_program slot_zero_world "devnet" endpoint entry ready_state
    = (Ok tt, ready_state) ∧
  for_each [entry] (check_program slot_zero_world "devnet" endpoint)
      ready_state
    = for_each [] (check_program slot_zero_world "devnet" endpoint)
        ready_state ∧
  ∃ s', versions_db (main example_config slot_zero_world ready_state).2
          = DbFile (Some s') ∧
        ∀ name cluster, (name, cluster, 0%Z) ∈ keys (programs s') →
                        (name, cluster, 0%Z) ∈ keys (programs empty_store).
Proof.
  intros endpoint entry.
  apply (slot_zero_not_recorded example_config slot_zero_world "devnet"
           endpoint "metaplex" (Fixed metaplex_address) metaplex_address
           metaplex_address
           {| programData := Some "ProgramData1111"; slot := None |}
           "ProgramData1111" "ProgramData1111"
           (Some {| programData := None; slot := Some 0%Z |})
           [] ready_state empty_store).
  all: reflexivity.
Defined.

Lemma collector_failure_aborts_run_witness :
  check_solana example_config devnet_down_world ready_state
    = (Raise (ExternalError "unreachable"), ready_state) ∧
  main example_config devnet_down_world ready_state
    = (Raise (ExternalError "unreachable"), ready_state).
Proof.
  apply (proj1 (collector_failure_aborts_run example_config devnet_down_world
                  (ExternalError "unreachable") ready_state ready_state
                  eq_refl)
           [] "devnet" "https://api.devnet.solana.com"
           [("testnet", "https://api.testnet.solana.com");
            ("mainnet-beta", "https://api.mainnet-beta.solana.com")]
           ready_state).
  all: reflexivity.
Defined.

(** C4, as the specification words it, fails: with devnet unreachable, the versions
    that testnet reports in the same run are not recorded. *)
Lemma collector_failure_not_isolated :
  ¬ (∀ cfg w st s cluster endpoint nodes v,
       versions_db st = DbFile (Some s) →
       (cluster, endpoint) ∈ SOLANA_CLUSTER_ENDPOINTS cfg →
       get_cluster_nodes w endpoint = Ok nodes →
       Some v ∈ nodes →
       ∃ s', versions_db (main cfg w st).2 = DbFile (Some s') ∧
             (cluster, v) ∈ keys (solana_clusters s')).
Proof.
  intros Hall.
  destruct (Hall example_config devnet_down_world ready_state empty_store
              "testnet" "https://api.testnet.solana.com"
              [Some "1.17.0"; None; Some "1.17.0"; Some "1.16.9"] "1.17.0")
    as (s' & Hs' & Hin).
  - reflexivity.
  - apply list_elem_of_further, list_elem_of_here.
  - reflexivity.
  - apply list_elem_of_here.
  - vm_compute in Hs'. inversion Hs'; subst s'.
    simpl in Hin. by apply not_elem_of_nil in Hin.
Qed.

(** * Further properties: recording *)

Section InsertAll.
Context {K : Type} `{EqDecision K}.
Implicit Types (t : table K) (k : K) (ks : list K).

Lemma keys_insert_or_ignore k k' t :
  k' ∈ keys (insert_or_ignore k t) ↔ k' ∈ keys t ∨ k' = k.
Proof.
  destruct (decide (k ∈ keys t)) as [Hk|Hk].
  - rewrite insert_or_ignore_present by done. split; [auto|].
    intros [?| ->]; done.
  - rewrite insert_or_ignore_absent, keys_app, elem_of_app by done.
    simpl. by rewrite list_elem_of_singleton.
Qed.

Lemma keys_insert_all ks k t :
  k ∈ keys (insert_all ks t) ↔ k ∈ keys t ∨ k ∈ ks.
Proof.
  unfold insert_all. revert t. induction ks as [|k0 ks IH]; intros t; simpl.
  - split; [auto|]. intros [?|?%not_elem_of_nil]; done.
  - rewrite IH, keys_insert_or_ignore, elem_of_cons. tauto.
Qed.

Lemma insert_all_present ks t : (∀ k, k ∈ ks → k ∈ keys t) → insert_all ks t = t.
Proof.
  unfold insert_all. revert t. induction ks as [|k0 ks IH]; intros t Hks;
    [done|].
  simpl. rewrite insert_or_ignore_present by (apply Hks, list_elem_of_here).
  apply IH. intros k Hk. by apply Hks, list_elem_of_further.
Qed.

(** The loop only appends, and what it appends is to notify. *)
Lemma insert_all_appends ks t :
  ∃ new, insert_all ks t = t ++ map (λ k, Row k false) new ∧
         (∀ k, k ∈ new → k ∈ ks ∧ k ∉ keys t) ∧
         (length new ≤ length ks)%nat.
Proof.
  unfold insert_all. revert t. induction ks as [|k0 ks IH]; intros t; simpl.
  - exists []. rewrite app_nil_r. split_and!; [done| |done].
    by intros k ?%not_elem_of_nil.
  - destruct (IH (insert_or_ignore k0 t)) as (new & -> & Hnew & Hlen).
    destruct (decide (k0 ∈ keys t)) as [Hk|Hk].
    + rewrite insert_or_ignore_present in * by done.
      exists new. split_and!; [done| |lia].
      intros k Hin. destruct (Hnew k Hin). split; [|done].
      by apply list_elem_of_further.
    + rewrite insert_or_ignore_absent in * by done.
      exists (k0 :: new). rewrite <- app_assoc. split_and!; [done| |simpl; lia].
      intros k [->|Hin]%elem_of_cons; [split; [apply list_elem_of_here|done]|].
      destruct (Hnew k Hin) as [H1 H2]. split; [by apply list_elem_of_further|].
      intros Hkt. apply H2. rewrite keys_app. apply elem_of_app. by left.
Qed.

Lemma unique_keys_insert_all ks t :
  unique_keys t → unique_keys (insert_all ks t).
Proof.
  unfold insert_all. revert t. induction ks as [|k0 ks IH]; intros t Hu;
    [done|].
  simpl. by apply IH, unique_keys_insert.
Qed.

End InsertAll.

Lemma with_db_with_db d d' st : with_db d' (with_db d st) = with_db d' st.
Proof. done. Qed.

Lemma for_each_fmap {A B} (h : A → B) (l : list A) (g : B → M unit) st :
  for_each (h <$> l) g st = for_each l (λ x, g (h x)) st.
Proof.
  revert st. induction l as [|x l IH]; intros st; [done|].
  simpl. unfold mbind, M_bind. destruct (g (h x) st) as [[[]|e] st1]; [|done].
  apply IH.
Qed.

(** A loop of [INSERT OR IGNORE] on a file with its tables. *)
Lemma insert_loop_eval f (ks : list (fkey f)) st s :
  versions_db st = DbFile (Some s) →
  for_each ks (execute_insert_or_ignore f) st =
  (Ok tt,
   with_db (DbFile (Some (set_table f (insert_all ks (get_table f s)) s))) st).
Proof.
  revert st s. induction ks as [|k ks IH]; intros st s Hs.
  - simpl. unfold insert_all. simpl. rewrite set_get_table, <- Hs.
    by rewrite with_db_same.
  - simpl. pose proof (recordIfAbsent_eval f k st s Hs) as Hk.
    unfold recordIfAbsent in Hk. rewrite (bind_ok _ _ _ _ _ Hk).
    rewrite (IH _ (set_table f (insert_or_ignore k (get_table f s)) s))
      by done.
    by rewrite with_db_with_db, get_set_table_eq, set_set_table.
Qed.

Lemma save_github_versions_eval name versions st s :
  versions_db st = DbFile (Some s) →
  save_github_versions name versions st =
  (Ok tt,
   with_db (DbFile (Some (set_table GithubVersions
     (insert_all (pair name <$> versions) (github_versions s)) s))) st).
Proof.
  intros Hs. unfold save_github_versions, db_commit.
  assert (sqlite3_connect st = (Ok tt, st)) as Hc.
  { unfold sqlite3_connect. by rewrite Hs. }
  rewrite (bind_ok _ _ _ _ _ Hc).
  pose proof (insert_loop_eval GithubVersions (pair name <$> versions) st s Hs)
    as Hloop.
  rewrite for_each_fmap in Hloop. by rewrite (bind_ok _ _ _ _ _ Hloop).
Qed.

Lemma save_solana_cluster_versions_eval cluster_name versions st s :
  versions_db st = DbFile (Some s) →
  save_solana_cluster_versions cluster_name versions st =
  (Ok tt,
   with_db (DbFile (Some (set_table SolanaClusters
     (insert_all (pair cluster_name <$> dict_keys versions)
        (solana_clusters s)) s))) st).
Proof.
  intros Hs. unfold save_solana_cluster_versions, db_commit.
  assert (sqlite3_connect st = (Ok tt, st)) as Hc.
  { unfold sqlite3_connect. by rewrite Hs. }
  rewrite (bind_ok _ _ _ _ _ Hc).
  pose proof (insert_loop_eval SolanaClusters
                (pair cluster_name <$> dict_keys versions) st s Hs) as Hloop.
  rewrite for_each_fmap in Hloop. by rewrite (bind_ok _ _ _ _ _ Hloop).
Qed.



Lemma tally_keys nodes v :
  v ∈ dict_keys (foldl count_version [] nodes) ↔ Some v ∈ nodes.
Proof.
  rewrite dict_get_keys, tally_get. simpl.
  destruct (decide (count_nodes v nodes = 0%nat)) as [Hc|Hc].
  - split; [by intros [? ?]|]. intros Hin. by apply count_nodes_zero in Hc.
  - split; [|eauto]. intros _.
    destruct (decide (Some v ∈ nodes)) as [|Hn]; [done|].
    by apply count_nodes_zero in Hn.
Qed.

Lemma elem_of_pair_fmap {A B} (a : A) (l : list B) (k : A * B) :
  k ∈ pair a <$> l ↔ ∃ b, k = (a, b) ∧ b ∈ l.
Proof. apply list_elem_of_fmap. Qed.

(** X2.  When a cluster answers with its nodes, the step of [check_solana]
    for it returns without an error; it appends to [solana_clusters] rows
    to notify and touches nothing else; afterwards the keys of the table
    are those it had and one per version some node reports, and stay
    unique. *)
Theorem cluster_versions_recorded w c e nodes st s :
  versions_db st = DbFile (Some s) →
  get_cluster_nodes w e = Ok nodes →
  ∃ s',
    check_cluster w (c, e) st = (Ok tt, with_db (DbFile (Some s')) st) ∧
    github_versions s' = github_versions s ∧
    programs s' = programs s ∧
    (∃ new, solana_clusters s'
              = solana_clusters s ++ map (λ k, Row k false) new) ∧
    (∀ k, k ∈ keys (solana_clusters s') ↔
          k ∈ keys (solana_clusters s) ∨ ∃ v, k = (c, v) ∧ Some v ∈ nodes) ∧
    (unique_keys (solana_clusters s) → unique_keys (solana_clusters s')).
Proof.
  intros Hs Hnodes.
  set (versions := foldl count_version [] nodes).
  eexists. split_and!.
  - unfold check_cluster, get_solana_cluster_versions, lift.
    unfold mbind at 1, M_bind at 1. unfold mbind at 1, M_bind at 1.
    rewrite Hnodes. simpl.
    apply (save_solana_cluster_versions_eval c versions st s Hs).
  - done.
  - done.
  - simpl. destruct (insert_all_appends (pair c <$> dict_keys versions)
                       (solana_clusters s)) as (new & Hnew & _).
    eauto.
  - intros k. simpl. rewrite keys_insert_all, elem_of_pair_fmap.
    split; (intros [?|(v & -> & Hv)]; [by left|right]);
      exists v; (split; [done|]); by apply tally_keys.
  - simpl. apply unique_keys_insert_all.
Qed.

(** X3.  When GitHub answers with the tags of a repository, the step of
    [check_github_versions] for it returns without an error; it appends to
    [github_versions] at most ten rows to notify and touches nothing else;
    afterwards the keys of the table are those it had and one per tag among
    the first ten, so a tag beyond the tenth is not recorded by this
    step. *)
Theorem first_ten_tags_recorded w name repo tags st s :
  versions_db st = DbFile (Some s) →
  get_repo_tags w repo = Ok tags →
  ∃ s',
    check_repository w (name, repo) st
      = (Ok tt, with_db (DbFile (Some s')) st) ∧
    solana_clusters s' = solana_clusters s ∧
    programs s' = programs s ∧
    (∃ new, github_versions s'
              = github_versions s ++ map (λ k, Row k false) new ∧
            (length new ≤ 10)%nat) ∧
    (∀ k, k ∈ keys (github_versions s') ↔
          k ∈ keys (github_versions s) ∨
          ∃ v, k = (name, v) ∧ v ∈ take 10 tags) ∧
    (unique_keys (github_versions s) → unique_keys (github_versions s')).
Proof.
  intros Hs Htags.
  eexists. split_and!.
  - unfold check_repository, get_github_versions, lift.
    unfold mbind at 1, M_bind at 1. unfold mbind at 1, M_bind at 1.
    rewrite Htags. simpl.
    apply (save_github_versions_eval name (take 10 tags) st s Hs).
  - done.
  - done.
  - simpl. destruct (insert_all_appends (pair name <$> take 10 tags)
                       (github_versions s)) as (new & Hnew & _ & Hlen).
    exists new. split; [done|].
    rewrite length_fmap, length_take in Hlen. lia.
  - intros k. simpl. by rewrite keys_insert_all, elem_of_pair_fmap.
  - simpl. apply unique_keys_insert_all.
Qed.


(** X5.  An account that does not exist, or whose data comes back raw, is
    not skipped: reading its parsed metadata raises [AttributeError], the
    step of the pair raises it with the state untouched, and the loop over
    the programs stops there. *)
Theorem absent_account_raises w cluster_name endpoint program_name addr a pk
    value rest st :
  resolve_address addr cluster_name = Some a →
  Pubkey_from_string w a = Ok pk →
  get_account_info_json_parsed w endpoint pk = Ok value →
  value = None ∨ value = Some RawData →
  check_program w cluster_name endpoint (program_name, addr) st
    = (Raise AttributeError, st) ∧
  for_each ((program_name, addr) :: rest)
      (check_program w cluster_name endpoint) st
    = (Raise AttributeError, st).
Proof.
  intros Haddr Hpk Hacc Hvalue.
  assert (check_program w cluster_name endpoint (program_name, addr) st
          = (Raise AttributeError, st)) as Hcheck.
  { unfold check_program, get_program_last_update, pubkey, lift, mbind, M_bind.
    rewrite Haddr, Hpk, Hacc. by destruct Hvalue as [-> | ->]. }
  split; [done|]. simpl. by rewrite (bind_raise _ _ _ _ _ Hcheck).
Qed.

(** X6.  A program whose addresses are given per cluster and that has none
    for a cluster is not skipped either: [Pubkey.from_string] of [None]
    raises [TypeError], and the loop over the programs stops there with the
    state untouched. *)
Theorem missing_cluster_address_raises w cluster_name endpoint program_name
    per rest st :
  dict_get per cluster_name = None →
  check_program w cluster_name endpoint (program_name, PerCluster per) st
    = (Raise TypeError, st) ∧
  for_each ((program_name, PerCluster per) :: rest)
      (check_program w cluster_name endpoint) st
    = (Raise TypeError, st).
Proof.
  intros Hper.
  assert (check_program w cluster_name endpoint (program_name, PerCluster per)
            st = (Raise TypeError, st)) as Hcheck.
  { unfold check_program, get_program_last_update, mbind, M_bind. simpl.
    by rewrite Hper. }
  split; [done|]. simpl. by rewrite (bind_raise _ _ _ _ _ Hcheck).
Qed.

(** * Further properties: notifying *)

Lemma not_selected_marked {K} `{EqDecision K} (k : K) (t : table K) :
  k ∈ keys t → k ∉ select_unnotified t → marked k t.
Proof.
  intros Hk Hn. split; [done|]. intros r Hr Hkr.
  destruct (notified r) eqn:E; [done|]. exfalso. apply Hn.
  apply elem_of_select_unnotified. eauto.
Qed.


(** What a notifier leaves for a row it fetched, by the outcome of its
    dispatch. *)
Lemma notify_outcome cfg w f (k : fkey f) st s :
  versions_db st = DbFile (Some s) →
  k ∈ select_unnotified (get_table f s) →
  ∃ st1 s1,
    notify cfg w f st = (Ok tt, st1) ∧
    versions_db st1 = DbFile (Some s1) ∧
    keys (get_table f s1) = keys (get_table f s) ∧
    (∀ f', f' ≠ f → get_table f' s1 = get_table f' s) ∧
    posted st1 = posted st
                   ++ attempts cfg f (select_unnotified (get_table f s)) ∧
    (k ∈ select_unnotified (get_table f s1) ↔ dispatch_ok cfg w f k = false).
Proof.
  intros Hs Hk.
  destruct (notify_spec cfg w f st s Hs) as (st1 & Hrun & Hdb & Hp).
  eexists st1, _. split_and!; [done|exact Hdb| | |done|].
  - by rewrite get_set_table_eq, keys_notify_table.
  - intros f' Hne. by apply get_set_table_ne.
  - rewrite get_set_table_eq, select_unnotified_notify_table.
    rewrite list_elem_of_filter. split.
    + intros [Hn _]. destruct (dispatch_ok cfg w f k); [|done].
      exfalso. by apply Hn.
    + intros Hf. split; [|done]. intros [Hok _]. congruence.
Qed.

(** X7.  The answer of the channel is not looked at: when the call of
    [requests.post] for the body of a row returns, whatever the status it
    carries, the notifier marks the row, and the row is not fetched
    again. *)
Theorem any_status_counts_as_sent cfg w f (k : fkey f) st t body status :
  rows f st = Some t → k ∈ select_unnotified t →
  body_of cfg f k = Some body →
  requests_post w (SLACK_CHANNEL_WEBHOOK cfg) body = Ok status →
  ∃ st1 t1 lines,
    notify cfg w f st = (Ok tt, st1) ∧
    rows f st1 = Some t1 ∧ marked k t1 ∧
    fetchUnnotified f st1 = (Ok lines, st1) ∧ (k ∉ lines) ∧
    body ∈ drop (length (posted st)) (posted st1).
Proof.
  intros (s & Hs & ->)%rows_Some Hk Hbody Hpost.
  destruct (notify_outcome cfg w f k st s Hs Hk)
    as (st1 & s1 & Hrun & Hs1 & Hkeys & _ & Hp & Hleft).
  assert (dispatch_ok cfg w f k = true) as Hok.
  { unfold dispatch_ok. by rewrite Hbody, Hpost. }
  assert (k ∉ select_unnotified (get_table f s1)) as Hn.
  { rewrite Hleft, Hok. done. }
  assert (rows f st1 = Some (get_table f s1)) as Hrows.
  { apply rows_Some. eauto. }
  exists st1, (get_table f s1), (select_unnotified (get_table f s1)).
  split_and!; [done|done| |by apply fetchUnnotified_eval|done|].
  - apply not_selected_marked; [|done].
    rewrite Hkeys. by apply select_unnotified_keys.
  - rewrite Hp, drop_app_length. by eapply elem_of_attempts.
Qed.



(** X9.  On a file without its tables a notifier raises
    [OperationalError], and so does the recording of a program slot.  When
    [versions.db] was absent, [sqlite3.connect] has by then created it
    empty, and [init_db], which only looks for the file, no longer creates
    the tables. *)
Theorem no_tables_raises cfg w f name version cluster st :
  ¬ has_tables st →
  let st' :=
    match versions_db st with
    | NoFile => with_db (DbFile None) st
    | DbFile _ => st
    end in
  notify cfg w f st = (Raise (OperationalError "no such table"), st') ∧
  save_program_version name version cluster st
    = (Raise (OperationalError "no such table"), st') ∧
  init_db st' = (Ok tt, st') ∧
  ¬ has_tables st'.
Proof.
  intros Hno st'.
  assert (versions_db st = NoFile ∨ versions_db st = DbFile None) as Hdb.
  { destruct (versions_db st) as [|[s|]] eqn:E; auto.
    exfalso. apply Hno. by exists s. }
  split_and!.
  - unfold notify, sqlite3_connect, execute_select_unnotified, the_table.
    subst st'.
    destruct Hdb as [Hd|Hd];
      repeat (unfold mbind, M_bind; simpl; rewrite ?Hd); done.
  - unfold save_program_version, sqlite3_connect, execute_insert_or_ignore,
      the_table.
    subst st'.
    destruct Hdb as [Hd|Hd];
      repeat (unfold mbind, M_bind; simpl; rewrite ?Hd); done.
  - subst st'. destruct Hdb as [Hd|Hd]; rewrite Hd.
    + by apply init_db_present with None.
    + by apply init_db_present with None.
  - subst st'. intros [s Hs]. destruct Hdb as [Hd|Hd]; rewrite Hd in Hs.
    + discriminate.
    + congruence.
Qed.

(** * Further properties: invariants of a run *)

(** A preorder on states that the statements of a run respect is respected
    by the run.  The [UPDATE] is taken with the line of the notifier that
    issues it, after the post. *)
Section Invariant.
Variable R : relation State.
Context `{!PreOrder R}.
Variable cfg : Config.
Variable w : World.
Hypothesis R_connect : respects R sqlite3_connect.
Hypothesis R_print : ∀ line, respects R (print line).
Hypothesis R_insert : ∀ f k, respects R (execute_insert_or_ignore f k).
Hypothesis R_script : respects R executescript_schema.
Hypothesis R_notify_line : ∀ f k, respects R (notify_line cfg w f k).

Lemma respects_pure {A} (m : M A) : (∀ st, (m st).2 = st) → respects R m.
Proof. intros Hm st. by rewrite Hm. Qed.

Lemma select_pure f st : (execute_select_unnotified f st).2 = st.
Proof.
  unfold execute_select_unnotified, the_table, mbind, M_bind.
  by destruct (versions_db st) as [|[s|]].
Qed.

Ltac inv_step :=
  first
    [ apply R_connect
    | apply R_print
    | apply R_insert
    | apply R_script
    | apply R_notify_line
    | apply respects_pure, select_pure
    | apply respects_ret, _
    | apply respects_raise, _
    | apply respects_lift, _
    | apply respects_if
    | apply respects_for_each; [apply _|intros ?]
    | apply respects_bind; [apply _| |intros ?] ].

Lemma inv_init_db : respects R init_db.
Proof.
  unfold init_db, db_commit. inv_step; [by apply respects_pure|].
  repeat inv_step. apply respects_pure. intros st. unfold open_schema_sql.
  by destruct (schema_sql_exists st).
Qed.

Lemma inv_save_solana c v : respects R (save_solana_cluster_versions c v).
Proof. unfold save_solana_cluster_versions, db_commit. repeat inv_step. Qed.

Lemma inv_save_github n v : respects R (save_github_versions n v).
Proof. unfold save_github_versions, db_commit. repeat inv_step. Qed.

Lemma inv_save_program n v c : respects R (save_program_version n v c).
Proof. unfold save_program_version, db_commit. repeat inv_step. Qed.

Lemma inv_check_cluster entry : respects R (check_cluster w entry).
Proof.
  destruct entry as [c e]. unfold check_cluster, get_solana_cluster_versions.
  repeat first [apply inv_save_solana|inv_step].
Qed.

Lemma inv_check_repository entry : respects R (check_repository w entry).
Proof.
  destruct entry as [n r]. unfold check_repository, get_github_versions.
  repeat first [apply inv_save_github|inv_step].
Qed.

Lemma inv_get_program_last_update e a :
  respects R (get_program_last_update w e a).
Proof.
  unfold get_program_last_update.
  assert (∀ a, respects R (pubkey w a)) as Hpk.
  { intros [s|]; simpl; inv_step. }
  assert (∀ v, respects R (parsed_info v)) as Hpi.
  { intros [[|[i|]]|]; simpl; inv_step. }
  repeat first [apply Hpk|apply Hpi|inv_step].
Qed.

Lemma inv_check_program c e entry : respects R (check_program w c e entry).
Proof.
  destruct entry as [n addr]. unfold check_program.
  repeat first
    [apply inv_get_program_last_update|apply inv_save_program|inv_step].
Qed.

Lemma inv_notify f : respects R (notify cfg w f).
Proof. unfold notify, db_commit. repeat inv_step. Qed.

Lemma inv_main : respects R (main cfg w).
Proof.
  unfold main, check_solana, check_chain_programs, check_github_versions,
    notify_github_versions, notify_programs_version,
    notify_solana_cluster_versions.
  repeat first
    [ apply inv_init_db | apply inv_notify | apply inv_check_cluster
    | apply inv_check_repository
    | apply respects_for_each; [apply _|intros ?]
    | apply respects_bind; [apply _| |intros ?] ].
  destruct x as [c e]. unfold check_cluster_programs.
  apply respects_for_each; [apply _|intros entry].
  apply inv_check_program.
Qed.

End Invariant.

Lemma set_table_pred (Q : ∀ f, table (fkey f) → Prop) f t s :
  (∀ f', Q f' (get_table f' s)) → Q f t →
  ∀ f', Q f' (get_table f' (set_table f t s)).
Proof. intros HQ Ht f'. destruct f, f'; simpl; auto; apply HQ. Qed.

Lemma rows_same_db f st st' :
  versions_db st' = versions_db st → rows f st' = rows f st.
Proof. unfold rows. by intros ->. Qed.

Lemma rows_tables f st s :
  versions_db st = DbFile (Some s) → rows f st = Some (get_table f s).
Proof. unfold rows. by intros ->. Qed.

Lemma rows_no_tables f st : ¬ has_tables st → rows f st = None.
Proof.
  intros Hno. unfold rows. destruct (versions_db st) as [|[s|]] eqn:E; try done.
  exfalso. apply Hno. by exists s.
Qed.

Lemma has_tables_dec st : has_tables st ∨ ¬ has_tables st.
Proof.
  unfold has_tables. destruct (versions_db st) as [|[s|]]; eauto;
    right; intros [s Hs]; discriminate.
Qed.

(** Without the tables the line of a notifier leaves the file as it is: the
    [UPDATE] raises inside the [try]. *)
Lemma notify_line_no_tables cfg w f k st :
  ¬ has_tables st →
  versions_db (notify_line cfg w f k st).2 = versions_db st.
Proof.
  intros Hno.
  unfold notify_line, try_except, lift, send_slack_notification,
    execute_update_notified, the_table, print.
  repeat (unfold mbind, M_bind; simpl).
  destruct (slack_message cfg f k) as [[message blks]|e]; simpl; [|done].
  destruct (requests_post _ _ _); simpl; [|done].
  destruct (versions_db st) as [|[s|]] eqn:E; simpl; try done.
  exfalso. apply Hno. by exists s.
Qed.

Lemma connect_cases st :
  (sqlite3_connect st).2 = st ∨
  (¬ has_tables st ∧ ¬ has_tables (sqlite3_connect st).2 ∧
   posted (sqlite3_connect st).2 = posted st).
Proof.
  unfold sqlite3_connect. destruct (versions_db st) eqn:E; simpl; [|by left].
  right. split_and!; [| |done]; intros [s Hs]; simpl in *; congruence.
Qed.

Lemma insert_cases f k st :
  (execute_insert_or_ignore f k st).2 = st ∨
  ∃ s, versions_db st = DbFile (Some s) ∧
       (execute_insert_or_ignore f k st).2 =
       with_db (DbFile (Some (set_table f
         (insert_or_ignore k (get_table f s)) s))) st.
Proof.
  destruct (versions_db st) as [|[s|]] eqn:E.
  - left. unfold execute_insert_or_ignore, the_table, mbind, M_bind.
    by rewrite E.
  - right. exists s. split; [done|].
    pose proof (recordIfAbsent_eval f k st s E) as H. unfold recordIfAbsent in H.
    by rewrite H.
  - left. unfold execute_insert_or_ignore, the_table, mbind, M_bind.
    by rewrite E.
Qed.

Lemma script_cases st :
  (executescript_schema st).2 = st ∨
  (executescript_schema st).2 = with_db (DbFile (Some empty_store)) st.
Proof.
  unfold executescript_schema. destruct (versions_db st) as [|[s|]]; auto.
Qed.

Lemma impl_preorder (I : State → Prop) : PreOrder (λ st st', I st → I st').
Proof. split; [by intros st|]. intros st1 st2 st3 H12 H23 H1. auto. Qed.

Lemma unique_state_run cfg w st :
  unique_state st → unique_state (main cfg w st).2.
Proof.
  revert st.
  apply (@inv_main (λ st st', unique_state st → unique_state st')
           (impl_preorder _) cfg w).
  - intros st HU. destruct (connect_cases st) as [->|(_ & Hno & _)]; [done|].
    intros f t Ht. by rewrite rows_no_tables in Ht.
  - intros line st HU f t Ht. by apply (HU f).
  - intros f k st HU. destruct (insert_cases f k st) as [->|(s & Hs & ->)];
      [done|].
    intros f' t Ht. unfold rows in Ht. simpl in Ht.
    inversion Ht; subst t.
    apply (set_table_pred (λ f t, unique_keys t)).
    + intros f0. apply (HU f0). by apply rows_tables.
    + apply unique_keys_insert, (HU f). by apply rows_tables.
  - intros st HU. destruct (script_cases st) as [->| ->]; [done|].
    intros f t Ht. unfold rows in Ht. simpl in Ht.
    inversion Ht; subst t. destruct f; apply NoDup_nil_2.
  - intros f k st HU. destruct (has_tables_dec st) as [[s Hs]|Hno].
    + destruct (notify_line_spec cfg w f k st s Hs) as (st' & Hrun & Hdb & _).
      rewrite Hrun. simpl. intros f' t Ht.
      rewrite (rows_tables f' _ _ Hdb) in Ht. inversion Ht; subst t.
      assert (∀ f0, unique_keys (get_table f0 s)) as HUs.
      { intros f0. apply (HU f0). by apply rows_tables. }
      destruct (dispatch_ok cfg w f k); [|apply HUs].
      apply (set_table_pred (λ f t, unique_keys t)); [done|].
      apply unique_keys_update, HUs.
    + intros f' t Ht. rewrite rows_no_tables in Ht; [done|].
      intros [s Hs]. apply Hno. exists s.
      by rewrite <- (notify_line_no_tables cfg w f k st Hno).
Qed.

(** X10.  Natural keys are unique in every table and stay so: from a state
    whose tables, if it has any, have unique keys (a system before its
    first run has none), any number of runs, under any behaviour of the
    outside world, leads to a state whose tables have unique keys. *)
Theorem keys_stay_unique cfg ws st :
  unique_state st → unique_state (runs cfg ws st).
Proof.
  unfold runs. revert st. induction ws as [|w ws IH]; intros st HU; [done|].
  simpl. by apply IH, unique_state_run.
Qed.




(** * Further properties: a second run *)

Lemma bind_Ok_inv {A B} (m : M A) (k : A → M B) st b st' :
  (m ≫= k) st = (Ok b, st') →
  ∃ a st1, m st = (Ok a, st1) ∧ k a st1 = (Ok b, st').
Proof.
  unfold mbind, M_bind. destruct (m st) as [[a|e] st1]; [eauto|done].
Qed.

Lemma covers_preorder : PreOrder covers.
Proof.
  split.
  - intros st s Hs. exists s. by split.
  - intros st1 st2 st3 H12 H23 s Hs.
    destruct (H12 s Hs) as (s2 & Hs2 & HT2).
    destruct (H23 s2 Hs2) as (s3 & Hs3 & HT3).
    exists s3. split; [done|]. intros f. etrans; [apply HT2|apply HT3].
Qed.

Lemma covers_same_db st st2 st2' :
  covers st st2 → versions_db st2' = versions_db st2 → covers st st2'.
Proof.
  intros Hc Hdb s Hs. destruct (Hc s Hs) as (s2 & Hs2 & HT).
  exists s2. split; [congruence|done].
Qed.

Lemma has_tables_same_db st st' :
  has_tables st → versions_db st' = versions_db st → has_tables st'.
Proof. intros [s Hs] Hdb. exists s. congruence. Qed.

Ltac subseteq_hyps :=
  first
    [ by intros ? ?
    | intros ? ? ? ? H12 H23; etrans; [apply H12|apply H23] ].

Lemma covers_print line : respects covers (print line).
Proof. apply respects_print; subseteq_hyps. Qed.

Lemma covers_connect : respects covers sqlite3_connect.
Proof. apply respects_connect; subseteq_hyps. Qed.

Lemma covers_insert f k : respects covers (execute_insert_or_ignore f k).
Proof.
  apply respects_insert with (P := λ _ _, True); try subseteq_hyps; [|done].
  intros f' k' t _ x Hx. apply keys_insert_or_ignore. by left.
Qed.

Lemma steady_ret {A} (a : A) : steady (mret a).
Proof.
  split; [|apply respects_ret, covers_preorder].
  intros st a' st' st2 [= <- <-] _ _. by exists st2.
Qed.

Lemma steady_lift {A} (r : result A) : steady (lift r).
Proof.
  split; [|apply respects_lift, covers_preorder].
  intros st a st' st2 [= -> <-] _ _. by exists st2.
Qed.

Lemma steady_raise {A} (e : exn) : steady (raise (A:=A) e).
Proof. split; [|apply respects_raise, covers_preorder]. by intros st a st' st2. Qed.

Lemma steady_print line : steady (print line).
Proof.
  split; [|apply covers_print].
  intros st a st' st2 _ _ _. destruct a. by eexists.
Qed.

Lemma steady_connect : steady sqlite3_connect.
Proof.
  split; [|apply covers_connect].
  intros st a st' st2 _ _ [s2 Hs2]. destruct a. exists st2.
  unfold sqlite3_connect. by rewrite Hs2.
Qed.

Lemma steady_insert f k : steady (execute_insert_or_ignore f k).
Proof.
  split; [|apply covers_insert].
  intros st a st' st2 Hrun Hc [s2 Hs2]. destruct a.
  destruct (versions_db st) as [|[s|]] eqn:Hs;
    try (unfold execute_insert_or_ignore, the_table, mbind, M_bind in Hrun;
         rewrite Hs in Hrun; discriminate).
  pose proof (recordIfAbsent_eval f k st s Hs) as Hst.
  unfold recordIfAbsent in Hst. rewrite Hst in Hrun. inversion Hrun; subst st'.
  destruct (Hc _ eq_refl) as (s2' & Hs2' & Hsub).
  assert (s2' = s2) as -> by congruence.
  specialize (Hsub f). rewrite get_set_table_eq in Hsub.
  assert (k ∈ keys (get_table f s2)) as Hk.
  { apply Hsub, insert_or_ignore_has. }
  pose proof (recordIfAbsent_eval f k st2 s2 Hs2) as Hst2.
  unfold recordIfAbsent in Hst2. eexists. split; [exact Hst2|].
  simpl. rewrite insert_or_ignore_present, set_get_table by done. done.
Qed.

Lemma steady_bind {A B} (m : M A) (k : A → M B) :
  steady m → (∀ a, steady (k a)) → steady (m ≫= k).
Proof.
  intros [Hm Hmc] Hk. split.
  - intros st b st' st2 Hrun Hc Ht.
    apply bind_Ok_inv in Hrun as (a & st_a & Hma & Hka).
    destruct (Hk a) as [Hkr Hkc].
    assert (covers st_a st') as Hca.
    { specialize (Hkc st_a). by rewrite Hka in Hkc. }
    assert (covers st_a st2) as Hca2.
    { eapply (@transitivity _ _ (@PreOrder_Transitive _ _ covers_preorder));
        eauto. }
    destruct (Hm st a st_a st2 Hma Hca2 Ht) as (st2a & Hm2 & Hdb & Hp).
    destruct (Hkr st_a b st' st2a Hka) as (st2' & Hk2 & Hdb' & Hp').
    { by eapply covers_same_db. }
    { by eapply has_tables_same_db. }
    exists st2'. split_and!; [|congruence|congruence].
    by rewrite (bind_ok _ _ _ _ _ Hm2).
  - apply respects_bind; [apply covers_preorder|done|]. intros a. apply Hk.
Qed.

Lemma steady_for_each {A} (l : list A) (body : A → M unit) :
  (∀ x, steady (body x)) → steady (for_each l body).
Proof.
  intros Hb. induction l as [|x l IH]; simpl.
  - apply steady_ret.
  - apply steady_bind; auto.
Qed.

Lemma steady_if {A} (b : bool) (m1 m2 : M A) :
  steady m1 → steady m2 → steady (if b then m1 else m2).
Proof. by destruct b. Qed.

Ltac steady_step :=
  first
    [ apply steady_print
    | apply steady_connect
    | apply steady_insert
    | apply steady_ret
    | apply steady_raise
    | apply steady_lift
    | apply steady_if
    | apply steady_for_each; intros ?
    | apply steady_bind; [|intros ?] ].

Lemma steady_check_cluster w entry : steady (check_cluster w entry).
Proof.
  destruct entry as [c e].
  unfold check_cluster, get_solana_cluster_versions,
    save_solana_cluster_versions, db_commit.
  repeat steady_step.
Qed.

Lemma steady_check_repository w entry : steady (check_repository w entry).
Proof.
  destruct entry as [n r].
  unfold check_repository, get_github_versions, save_github_versions, db_commit.
  repeat steady_step.
Qed.

Lemma steady_check_program w c e entry : steady (check_program w c e entry).
Proof.
  destruct entry as [n addr].
  assert (∀ a, steady (pubkey w a)) as Hpk.
  { intros [s|]; simpl; steady_step. }
  assert (∀ v, steady (parsed_info v)) as Hpi.
  { intros [[|[i|]]|]; simpl; steady_step. }
  unfold check_program, get_program_last_update, save_program_version,
    db_commit.
  repeat first [apply Hpk|apply Hpi|steady_step].
Qed.

Lemma steady_check_chain_programs cfg w : steady (check_chain_programs cfg w).
Proof.
  unfold check_chain_programs. apply steady_for_each. intros [c e].
  unfold check_cluster_programs. apply steady_for_each. intros entry.
  apply steady_check_program.
Qed.

Lemma steady_check_github cfg w : steady (check_github_versions cfg w).
Proof.
  unfold check_github_versions. apply steady_for_each. intros entry.
  apply steady_check_repository.
Qed.

Lemma covers_notify cfg w f : respects covers (notify cfg w f).
Proof.
  apply respects_notify; try subseteq_hyps.
  intros f' k t. by rewrite keys_update_notified.
Qed.

Lemma filter_none {A} (P : A → Prop) `{∀ x, Decision (P x)} (l : list A) :
  (∀ x, x ∈ l → ¬ P x) → filter P l = [].
Proof.
  induction l as [|x l IH]; intros HP; [done|].
  rewrite filter_cons, decide_False by apply HP, list_elem_of_here.
  apply IH. intros y Hy. by apply HP, list_elem_of_further.
Qed.

Lemma notify_Ok_tables cfg w f st st1 :
  notify cfg w f st = (Ok tt, st1) → has_tables st.
Proof.
  intros Hrun. destruct (has_tables_dec st) as [|Hno]; [done|].
  exfalso. revert Hrun.
  unfold notify, sqlite3_connect, execute_select_unnotified, the_table.
  destruct (versions_db st) as [|[s|]] eqn:E;
    repeat (unfold mbind, M_bind; simpl; rewrite ?E); try done.
  exfalso. apply Hno. by exists s.
Qed.

(** With nothing to notify a notifier returns and changes nothing. *)
Lemma quiet_notify cfg w f st s :
  versions_db st = DbFile (Some s) →
  select_unnotified (get_table f s) = [] →
  notify cfg w f st = (Ok tt, st).
Proof.
  intros Hs Hq.
  unfold notify, db_commit, sqlite3_connect, execute_select_unnotified,
    the_table.
  repeat (unfold mbind, M_bind; simpl; rewrite ?Hs). by rewrite Hq.
Qed.

(** A notifier all of whose dispatches succeed leaves nothing to notify in
    its table, and leaves the other tables as they are. *)
Lemma notify_quiets cfg w f st st1 :
  notify cfg w f st = (Ok tt, st1) →
  (∀ t k, rows f st = Some t → k ∈ keys t → dispatch_ok cfg w f k = true) →
  ∃ s s1,
    versions_db st = DbFile (Some s) ∧ versions_db st1 = DbFile (Some s1) ∧
    select_unnotified (get_table f s1) = [] ∧
    ∀ f', f' ≠ f → get_table f' s1 = get_table f' s.
Proof.
  intros Hrun Hok.
  destruct (notify_Ok_tables _ _ _ _ _ Hrun) as [s Hs].
  destruct (notify_spec cfg w f st s Hs) as (st1' & Hrun' & Hdb & _).
  rewrite Hrun in Hrun'. inversion Hrun'; subst st1'.
  eexists s, _. split_and!; [done|exact Hdb| |].
  - rewrite get_set_table_eq, select_unnotified_notify_table.
    apply filter_none. intros k Hk Hn. apply Hn. split; [|done].
    apply (Hok (get_table f s)); [by apply rows_tables|].
    by apply select_unnotified_keys.
  - intros f' Hne. by apply get_set_table_ne.
Qed.

Lemma check_chain_programs_frame cfg w f :
  f ≠ Programs → respects (same_table f) (check_chain_programs cfg w).
Proof.
  intros Hf.
  apply respects_check_chain_programs with (P := λ f' _, f' ≠ f).
  - by intros f' t _.
  - intros f' t1 t2 t3 H12 H23 Heq. by rewrite H12, H23.
  - intros n c v _ Heq. by apply Hf.
  - intros f' k t Hne Heq. done.
Qed.

Lemma check_github_versions_frame cfg w f :
  f ≠ GithubVersions → respects (same_table f) (check_github_versions cfg w).
Proof.
  intros Hf.
  apply respects_check_github with (P := λ f' _, f' ≠ f).
  - by intros f' t _.
  - intros f' t1 t2 t3 H12 H23 Heq. by rewrite H12, H23.
  - intros k Heq. by apply Hf.
  - intros f' k t Hne Heq. done.
Qed.

Lemma dispatch_ok_below cfg w st st1 :
  covers st st1 →
  (∀ f t k, rows f st1 = Some t → k ∈ keys t → dispatch_ok cfg w f k = true) →
  ∀ f t k, rows f st = Some t → k ∈ keys t → dispatch_ok cfg w f k = true.
Proof.
  intros Hc Hok f t k (s & Hs & ->)%rows_Some Hk.
  destruct (Hc s Hs) as (s1 & Hs1 & Hsub).
  apply (Hok f (get_table f s1)); [by apply rows_tables|by apply Hsub].
Qed.

(** X12.  When a run returns and every row of the store it leaves can be
    dispatched under the outside world of that run, it leaves no row to
    notify; and a second run under the same world returns too, records
    nothing, marks nothing and posts nothing. *)
Theorem second_run_is_silent cfg w st st1 :
  main cfg w st = (Ok tt, st1) →
  (∀ f t k, rows f st1 = Some t → k ∈ keys t → dispatch_ok cfg w f k = true) →
  has_tables st1 ∧ all_notified st1 ∧
  ∃ st2, main cfg w st1 = (Ok tt, st2) ∧
         versions_db st2 = versions_db st1 ∧ posted st2 = posted st1.
Proof.
  intros Hrun Hok. unfold main in Hrun.
  apply bind_Ok_inv in Hrun as ([] & sa & Hinit & Hrun).
  apply bind_Ok_inv in Hrun as ([] & sb & Hsol & Hrun).
  apply bind_Ok_inv in Hrun as ([] & sc & Hchain & Hrun).
  apply bind_Ok_inv in Hrun as ([] & sd & Hgit & Hrun).
  apply bind_Ok_inv in Hrun as ([] & se & Hng & Hnp).
  unfold check_solana in Hsol.
  apply bind_Ok_inv in Hsol as ([] & sa1 & Hloop & Hns).
  unfold notify_solana_cluster_versions in Hns.
  unfold notify_github_versions in Hng.
  unfold notify_programs_version in Hnp.
  (* the keys only grow along the run *)
  assert (covers se st1) as Hc_e.
  { pose proof (covers_notify cfg w Programs se) as H. by rewrite Hnp in H. }
  assert (covers sd st1) as Hc_d.
  { pose proof (covers_notify cfg w GithubVersions sd) as H.
    rewrite Hng in H.
    eapply (@transitivity _ _ (@PreOrder_Transitive _ _ covers_preorder));
      eauto. }
  assert (covers sc st1) as Hc_c.
  { pose proof (proj2 (steady_check_github cfg w) sc) as H.
    rewrite Hgit in H.
    eapply (@transitivity _ _ (@PreOrder_Transitive _ _ covers_preorder));
      eauto. }
  assert (covers sb st1) as Hc_b.
  { pose proof (proj2 (steady_check_chain_programs cfg w) sb) as H.
    rewrite Hchain in H.
    eapply (@transitivity _ _ (@PreOrder_Transitive _ _ covers_preorder));
      eauto. }
  assert (covers sa1 st1) as Hc_a.
  { pose proof (covers_notify cfg w SolanaClusters sa1) as H.
    rewrite Hns in H.
    eapply (@transitivity _ _ (@PreOrder_Transitive _ _ covers_preorder));
      eauto. }
  (* each notifier empties its table, the later stages leave it alone *)
  destruct (notify_quiets cfg w SolanaClusters sa1 sb Hns)
    as (s_a & s_b & Hs_a & Hs_b & Hq_b & _).
  { intros t k. by apply (dispatch_ok_below cfg w sa1 st1). }
  destruct (check_chain_programs_frame cfg w SolanaClusters ltac:(done) sb
              s_b Hs_b) as (s_c & Hs_c & Hf_c).
  rewrite Hchain in Hs_c. simpl in Hs_c.
  destruct (check_github_versions_frame cfg w SolanaClusters ltac:(done) sc
              s_c Hs_c) as (s_d & Hs_d & Hf_d).
  rewrite Hgit in Hs_d. simpl in Hs_d.
  destruct (notify_quiets cfg w GithubVersions sd se Hng)
    as (s_d' & s_e & Hs_d' & Hs_e & Hq_e & Hf_e).
  { intros t k. by apply (dispatch_ok_below cfg w sd st1). }
  assert (s_d' = s_d) as -> by congruence.
  destruct (notify_quiets cfg w Programs se st1 Hnp)
    as (s_e' & s_1 & Hs_e' & Hs_1 & Hq_1 & Hf_1).
  { intros t k. by apply (dispatch_ok_below cfg w se st1). }
  assert (s_e' = s_e) as -> by congruence.
  assert (select_unnotified (get_table SolanaClusters s_1) = []) as Hq_sol.
  { rewrite (Hf_1 SolanaClusters), (Hf_e SolanaClusters) by done.
    rewrite <- (Hf_d SolanaClusters eq_refl), <- (Hf_c SolanaClusters eq_refl).
    done. }
  assert (select_unnotified (get_table GithubVersions s_1) = []) as Hq_git.
  { by rewrite (Hf_1 GithubVersions). }
  assert (has_tables st1) as Ht1 by (by exists s_1).
  split_and!; [done| |].
  { intros f t Ht. rewrite (rows_tables f _ _ Hs_1) in Ht.
    inversion Ht; subst t. by destruct f. }
  (* the second run *)
  assert (init_db st1 = (Ok tt, st1)) as Hinit2
    by (by eapply init_db_present).
  destruct (proj1 (steady_for_each (SOLANA_CLUSTER_ENDPOINTS cfg)
                     (check_cluster w) (steady_check_cluster w))
              sa tt sa1 st1 Hloop Hc_a Ht1) as (r1 & Hr1 & Hdb1 & Hp1).
  assert (notify cfg w SolanaClusters r1 = (Ok tt, r1)) as Hn1.
  { apply quiet_notify with s_1; [congruence|done]. }
  destruct (proj1 (steady_check_chain_programs cfg w) sb tt sc r1 Hchain)
    as (r2 & Hr2 & Hdb2 & Hp2).
  { by eapply covers_same_db. }
  { by eapply has_tables_same_db. }
  destruct (proj1 (steady_check_github cfg w) sc tt sd r2 Hgit)
    as (r3 & Hr3 & Hdb3 & Hp3).
  { eapply covers_same_db; [exact Hc_d|congruence]. }
  { eapply has_tables_same_db; [exact Ht1|congruence]. }
  assert (notify cfg w GithubVersions r3 = (Ok tt, r3)) as Hn2.
  { apply quiet_notify with s_1; [congruence|done]. }
  assert (notify cfg w Programs r3 = (Ok tt, r3)) as Hn3.
  { apply quiet_notify with s_1; [congruence|done]. }
  exists r3. split_and!; [|congruence|congruence].
  unfold main, check_solana, notify_solana_cluster_versions,
    notify_github_versions, notify_programs_version.
  rewrite (bind_ok _ _ _ _ _ Hinit2).
  assert ((for_each (SOLANA_CLUSTER_ENDPOINTS cfg) (check_cluster w)
             ≫= λ _, notify cfg w SolanaClusters) st1 = (Ok tt, r1)) as Hcs.
  { by rewrite (bind_ok _ _ _ _ _ Hr1). }
  rewrite (bind_ok _ _ _ _ _ Hcs), (bind_ok _ _ _ _ _ Hr2).
  by rewrite (bind_ok _ _ _ _ _ Hr3), (bind_ok _ _ _ _ _ Hn2).
Qed.

Lemma length_attempts cfg f (lines : list (fkey f)) :
  (length (attempts cfg f lines) ≤ length lines)%nat.
Proof.
  unfold attempts. induction lines as [|k lines IH]; [done|].
  change (omap (body_of cfg f) (k :: lines))
    with (match body_of cfg f k with
          | Some b => b :: omap (body_of cfg f) lines
          | None => omap (body_of cfg f) lines
          end).
  destruct (body_of cfg f k); cbn [length]; lia.
Qed.

Lemma table_le_notify_table {K} `{EqDecision K} (ok : K → bool)
    (lines : list K) (t : table K) :
  table_le t (notify_table ok lines t).
Proof.
  unfold notify_table. revert t.
  induction lines as [|k lines IH]; intros t; [apply table_le_refl|].
  simpl. eapply table_le_trans; [|apply IH].
  destruct (ok k); [apply table_le_update|apply table_le_refl].
Qed.

(** X13.  On a file with its tables a notifier always returns, whatever the
    channel does: it posts at most one body per row it fetched, it neither
    adds nor removes a row, it leaves the other tables as they are, and in
    its own table the flags only go from 0 to 1. *)
Theorem notifier_always_returns cfg w f st s :
  versions_db st = DbFile (Some s) →
  ∃ st1 s1,
    notify cfg w f st = (Ok tt, st1) ∧
    versions_db st1 = DbFile (Some s1) ∧
    keys (get_table f s1) = keys (get_table f s) ∧
    table_le (get_table f s) (get_table f s1) ∧
    (∀ f', f' ≠ f → get_table f' s1 = get_table f' s) ∧
    (length (posted st1)
       ≤ length (posted st) + length (select_unnotified (get_table f s)))%nat.
Proof.
  intros Hs.
  destruct (notify_spec cfg w f st s Hs) as (st1 & Hrun & Hdb & Hp).
  eexists st1, _. split_and!; [done|exact Hdb| | | |].
  - by rewrite get_set_table_eq, keys_notify_table.
  - rewrite get_set_table_eq. apply table_le_notify_table.
  - intros f' Hne. by apply get_set_table_ne.
  - rewrite Hp, length_app.
    pose proof (length_attempts cfg f (select_unnotified (get_table f s))).
    lia.
Qed.

(** * The further properties at concrete inputs *)


Lemma cluster_versions_recorded_witness :
  let nodes := [Some "1.17.0"; None; Some "1.17.0"; Some "1.16.9"] in
  ∃ s',
    check_cluster calm_world ("devnet", "https://api.devnet.solana.com")
        ready_state
      = (Ok tt, with_db (DbFile (Some s')) ready_state) ∧
    github_versions s' = github_versions empty_store ∧
    programs s' = programs empty_store ∧
    (∃ new, solana_clusters s'
              = solana_clusters empty_store ++ map (λ k, Row k false) new) ∧
    (∀ k, k ∈ keys (solana_clusters s') ↔
          k ∈ keys (solana_clusters empty_store) ∨
          ∃ v, k = ("devnet", v) ∧ Some v ∈ nodes) ∧
    (unique_keys (solana_clusters empty_store) →
     unique_keys (solana_clusters s')).
Proof.
  intros nodes.
  apply (cluster_versions_recorded calm_world "devnet"
           "https://api.devnet.solana.com" nodes ready_state empty_store).
  - reflexivity.
  - reflexivity.
Defined.

Lemma first_ten_tags_recorded_witness :
  ∃ s',
    check_repository calm_world ("solana", "solana-labs/solana") ready_state
      = (Ok tt, with_db (DbFile (Some s')) ready_state) ∧
    solana_clusters s' = solana_clusters empty_store ∧
    programs s' = programs empty_store ∧
    (∃ new, github_versions s'
              = github_versions empty_store ++ map (λ k, Row k false) new ∧
            (length new ≤ 10)%nat) ∧
    (∀ k, k ∈ keys (github_versions s') ↔
          k ∈ keys (github_versions empty_store) ∨
          ∃ v, k = ("solana", v) ∧ v ∈ take 10 ["v1.17.0"; "v1.16.0"]) ∧
    (unique_keys (github_versions empty_store) →
     unique_keys (github_versions s')).
Proof.
  apply (first_ten_tags_recorded calm_world "solana" "solana-labs/solana"
           ["v1.17.0"; "v1.16.0"] ready_state empty_store).
  - reflexivity.
  - reflexivity.
Defined.

(** Of twelve tags the eleventh and the twelfth are not recorded. *)
Example only_ten_of_twelve_tags :
  rows GithubVersions
    (save_github_versions "solana"
       (take 10 ["t1"; "t2"; "t3"; "t4"; "t5"; "t6"; "t7"; "t8"; "t9"; "t10";
                 "t11"; "t12"])
       ready_state).2
  = Some (map (λ v, Row ("solana", v) false)
            ["t1"; "t2"; "t3"; "t4"; "t5"; "t6"; "t7"; "t8"; "t9"; "t10"]).
Proof. vm_compute. reflexivity. Qed.


Lemma absent_account_raises_witness :
  check_program no_account_world "devnet" "https://api.devnet.solana.com"
      ("metaplex", Fixed metaplex_address) ready_state
    = (Raise AttributeError, ready_state) ∧
  for_each [("metaplex", Fixed metaplex_address)]
      (check_program no_account_world "devnet"
         "https://api.devnet.solana.com") ready_state
    = (Raise AttributeError, ready_state).
Proof.
  apply (absent_account_raises no_account_world "devnet"
           "https://api.devnet.solana.com" "metaplex"
           (Fixed metaplex_address) metaplex_address metaplex_address
           None [] ready_state).
  - reflexivity.
  - reflexivity.
  - reflexivity.
  - left. reflexivity.
Defined.

Lemma missing_cluster_address_raises_witness :
  let per := [("devnet", metaplex_address)] in
  check_program calm_world "testnet" "https://api.testnet.solana.com"
      ("metaplex", PerCluster per) ready_state
    = (Raise TypeError, ready_state) ∧
  for_each [("metaplex", PerCluster per)]
      (check_program calm_world "testnet" "https://api.testnet.solana.com")
      ready_state
    = (Raise TypeError, ready_state).
Proof.
  intros per.
  apply (missing_cluster_address_raises calm_world "testnet"
           "https://api.testnet.solana.com" "metaplex" per [] ready_state).
  reflexivity.
Defined.

Lemma any_status_counts_as_sent_witness :
  let k : fkey GithubVersions := ("solana", "v1.16.0") in
  ∃ st1 t1 lines,
    notify example_config slack_500_world GithubVersions one_tag_state
      = (Ok tt, st1) ∧
    rows GithubVersions st1 = Some t1 ∧ marked k t1 ∧
    fetchUnnotified GithubVersions st1 = (Ok lines, st1) ∧ (k ∉ lines) ∧
    one_tag_body ∈ drop (length (posted one_tag_state)) (posted st1).
Proof.
  intros k.
  apply (any_status_counts_as_sent example_config slack_500_world
           GithubVersions k one_tag_state (github_versions one_tag_store)
           one_tag_body 500%Z).
  - reflexivity.
  - apply list_elem_of_here.
  - reflexivity.
  - reflexivity.
Defined.


Lemma no_tables_raises_witness :
  notify example_config calm_world GithubVersions no_file_state
    = (Raise (OperationalError "no such table"), empty_file_state) ∧
  save_program_version "metaplex" 250000000%Z "devnet" no_file_state
    = (Raise (OperationalError "no such table"), empty_file_state) ∧
  init_db empty_file_state = (Ok tt, empty_file_state) ∧
  ¬ has_tables empty_file_state.
Proof.
  apply (no_tables_raises example_config calm_world GithubVersions
           "metaplex" 250000000%Z "devnet" no_file_state).
  intros [s Hs]. discriminate.
Defined.

Lemma keys_stay_unique_witness :
  unique_state
    (runs example_config [calm_world; devnet_down_world; slack_down_world]
       no_file_state).
Proof.
  apply (keys_stay_unique example_config
           [calm_world; devnet_down_world; slack_down_world] no_file_state).
  intros f t Ht. discriminate.
Defined.


Lemma notifier_always_returns_witness :
  ∃ st1 s1,
    notify example_config slack_down_world GithubVersions one_tag_state
      = (Ok tt, st1) ∧
    versions_db st1 = DbFile (Some s1) ∧
    keys (get_table GithubVersions s1)
      = keys (get_table GithubVersions one_tag_store) ∧
    table_le (get_table GithubVersions one_tag_store)
      (get_table GithubVersions s1) ∧
    (∀ f', f' ≠ GithubVersions →
       get_table f' s1 = get_table f' one_tag_store) ∧
    (length (posted st1)
       ≤ length (posted one_tag_state)
         + length (select_unnotified
                     (get_table GithubVersions one_tag_store)))%nat.
Proof.
  apply (notifier_always_returns example_config slack_down_world
           GithubVersions one_tag_state one_tag_store).
  reflexivity.
Defined.

Lemma second_run_is_silent_witness :
  let st1 := (main example_config calm_world no_file_state).2 in
  has_tables st1 ∧ all_notified st1 ∧
  ∃ st2, main example_config calm_world st1 = (Ok tt, st2) ∧
         versions_db st2 = versions_db st1 ∧ posted st2 = posted st1.
Proof.
  intros st1.
  apply (second_run_is_silent example_config calm_world no_file_state st1).
  - vm_compute. reflexivity.
  - intros f t k Ht Hk.
    destruct f; vm_compute in Ht; injection Ht as <-;
      unfold keys in Hk; cbn [fmap list_fmap key] in Hk;
      repeat (apply elem_of_cons in Hk as [->|Hk]; [vm_compute; reflexivity|]);
      by apply elem_of_nil in Hk.
Defined.
